(** * Verification of script/crawl-libreoffice.js

    A shallow embedding of the LibreOffice dictionary downloader:
    the text normaliser [normalizeContent], the [SET] pragma rewrite, the
    static catalog, and the effectful [processDictionary] / [main] over an
    explicit model of the file system, the network and the console. *)

From Stdlib Require Import NArith Ascii String List Bool Lia.
From stdpp Require Import gmap strings list pretty.

Open Scope N_scope.

(** ** JavaScript strings

    A JavaScript string is a sequence of UTF-16 code units; the regular
    expressions of the script have no [u] flag, so they work on code units. *)

Definition char := N.
Abbreviation jsstring := (list char).

Definition BOM : char := 0xFEFF.  (* byte-order mark *)
Definition LF : char := 0x0A.     (* \n *)
Definition CR : char := 0x0D.     (* \r *)
Definition SP : char := 0x20.     (* space *)
Definition TAB : char := 0x09.    (* \t *)
Definition LS : char := 0x2028.   (* line separator *)
Definition PS : char := 0x2029.   (* paragraph separator *)

(** The code units of a string literal of the script or of a descriptor
    field, all of whose characters are in the ASCII range. *)
Definition js (s : string) : jsstring :=
  map N_of_ascii (list_ascii_of_string s).

(** ECMAScript LineTerminator: LF, CR, U+2028, U+2029. *)
Definition is_line_terminator (c : char) : bool :=
  (c =? LF) || (c =? CR) || (c =? LS) || (c =? PS).

(** ** The regular expressions of the script

    Only the fragment of the ECMAScript pattern syntax that the script uses:
    a pattern is a sequence of terms; a term is a one-character atom, an atom
    under a greedy [*] or [+], or one of the assertions [^] and [$]. *)

Module Regex.

Inductive atom :=
| Lit (c : char)            (* a literal character *)
| OneOf (cs : list char)    (* a class [...] *)
| Dot.                      (* . : anything but a line terminator *)

Inductive term :=
| One (a : atom)
| Star (a : atom)
| Plus (a : atom)
| Bol                       (* ^ *)
| Eol.                      (* $ *)

Definition pattern := list term.

Record regexp := RegExp {
  source : pattern;
  global : bool;      (* flag g *)
  multiline : bool    (* flag m *)
}.

Definition atom_matches (a : atom) (c : char) : bool :=
  match a with
  | Lit d => c =? d
  | OneOf cs => existsb (N.eqb c) cs
  | Dot => negb (is_line_terminator c)
  end.

(** [^]: at the start of the input, or with flag m after a line terminator.
    [prev] is the code unit before the current position. *)
Definition at_bol (ml : bool) (prev : option char) : bool :=
  match prev with
  | None => true
  | Some c => ml && is_line_terminator c
  end.

(** [$]: at the end of the input, or with flag m before a line terminator. *)
Definition at_eol (ml : bool) (suf : jsstring) : bool :=
  match suf with
  | [] => true
  | c :: _ => ml && is_line_terminator c
  end.

(** Backtracking matcher in continuation-passing style.  A position is the
    code unit before it and the input after it; a successful match returns
    the input left after the match. *)
Definition cont := option char -> jsstring -> option jsstring.

(** Greedy [a*]: take one more [a] if that leads to a match, otherwise go on
    with the rest of the pattern from here. *)
Fixpoint star_match (a : atom) (k : cont) (prev : option char)
    (suf : jsstring) : option jsstring :=
  match suf with
  | c :: s =>
      if atom_matches a c then
        match star_match a k (Some c) s with
        | Some r => Some r
        | None => k prev suf
        end
      else k prev suf
  | [] => k prev suf
  end.

Fixpoint match_pattern (ml : bool) (p : pattern) : cont :=
  fun prev suf =>
  match p with
  | [] => Some suf
  | t :: p' =>
      let k := match_pattern ml p' in
      match t with
      | One a =>
          match suf with
          | c :: s => if atom_matches a c then k (Some c) s else None
          | [] => None
          end
      | Star a => star_match a k prev suf
      | Plus a =>
          match suf with
          | c :: s => if atom_matches a c then star_match a k (Some c) s else None
          | [] => None
          end
      | Bol => if at_bol ml prev then k prev suf else None
      | Eol => if at_eol ml suf then k prev suf else None
      end
  end.

(** [String.prototype.replace] with a regexp without flag g and a
    replacement string without [$] patterns: the leftmost match is replaced,
    the rest of the input is copied. *)
Fixpoint replace_first (ml : bool) (p : pattern) (repl : jsstring)
    (prev : option char) (s : jsstring) : jsstring :=
  match match_pattern ml p prev s with
  | Some rest => repl ++ rest
  | None =>
      match s with
      | [] => []
      | c :: s' => c :: replace_first ml p repl (Some c) s'
      end
  end.

(** With flag g every match is replaced, each search starting where the
    match before it ended (one code unit further after an empty match).
    [skip] counts the code units of the current match still to be dropped. *)
Fixpoint replace_all (ml : bool) (p : pattern) (repl : jsstring)
    (skip : nat) (prev : option char) (s : jsstring) : jsstring :=
  match skip, s with
  | S n, c :: s' => replace_all ml p repl n (Some c) s'
  | S _, [] => []
  | O, _ =>
      match match_pattern ml p prev s with
      | Some rest =>
          repl ++
          match (length s - length rest)%nat, s with
          | S n, c :: s' => replace_all ml p repl n (Some c) s'
          | O, c :: s' => c :: replace_all ml p repl O (Some c) s'
          | _, [] => []
          end
      | None =>
          match s with
          | [] => []
          | c :: s' => c :: replace_all ml p repl O (Some c) s'
          end
      end
  end.

(** Whether the pattern matches somewhere at or after the current position
    ([RegExp.prototype.test] on a regexp without flag g). *)
Fixpoint test_from (ml : bool) (p : pattern) (prev : option char)
    (s : jsstring) : bool :=
  match match_pattern ml p prev s with
  | Some _ => true
  | None =>
      match s with
      | [] => false
      | c :: s' => test_from ml p (Some c) s'
      end
  end.

Definition test (re : regexp) (s : jsstring) : bool :=
  test_from (multiline re) (source re) None s.

(** The code unit before the position reached after reading [a]. *)
Definition prev_after (prev : option char) (a : jsstring) : option char :=
  fold_left (fun _ c => Some c) a prev.

Definition replace (re : regexp) (repl : jsstring) (s : jsstring) : jsstring :=
  if global re
  then replace_all (multiline re) (source re) repl O None s
  else replace_first (multiline re) (source re) repl None s.

End Regex.

Import Regex.

(** ** normalizeContent (lines 224-231) *)

Definition re_bom : regexp := RegExp [Bol; One (Lit BOM)] false false.       (* /^\uFEFF/ *)
Definition re_crlf : regexp := RegExp [One (Lit CR); One (Lit LF)] true false. (* /\r\n/g *)
Definition re_cr : regexp := RegExp [One (Lit CR)] true false.               (* /\r/g *)
Definition re_trailing_ws : regexp :=
  RegExp [Plus (OneOf [SP; TAB]); Eol] true true.                            (* /[ \t]+$/gm *)
Definition re_final_newlines : regexp := RegExp [Star (Lit LF); Eol] false false. (* /\n*$/ *)

Definition normalizeContent (content : jsstring) : jsstring :=
  replace re_final_newlines [LF]
    (replace re_trailing_ws []
      (replace re_cr [LF]
        (replace re_crlf [LF]
          (replace re_bom [] content)))).

(** ** The SET pragma rewrite of the affix file (line 281) *)

Definition re_set : regexp :=
  RegExp [Bol; One (Lit 0x53); One (Lit 0x45); One (Lit 0x54); One (Lit SP); Star Dot]
         false true.                                                          (* /^SET .*/m *)

Definition SET_UTF8 : jsstring := js "SET UTF-8".

Abbreviation set_pattern := (source re_set).
Abbreviation dot := (atom_matches Dot).

Definition set_utf8 (content : jsstring) : jsstring :=
  replace re_set SET_UTF8 content.

(** The content written to index.aff (lines 279-283). *)
Definition affContent (fetched : jsstring) : jsstring :=
  normalizeContent (set_utf8 fetched).


(** ** Closed forms of the five replacements of normalizeContent

    Plain list functions, each proved below to compute what the regexp
    semantics above computes for the corresponding [replace] call. *)

Definition is_ws (c : char) : bool := (c =? SP) || (c =? TAB).

(** Step 1: drop one leading byte-order mark. *)
Definition strip_bom (s : jsstring) : jsstring :=
  match s with
  | c :: t => if c =? BOM then t else s
  | [] => []
  end.

(** Step 2: every CR LF pair becomes LF. *)
Fixpoint crlf_to_lf (s : jsstring) : jsstring :=
  match s with
  | [] => []
  | c :: t =>
      match t with
      | d :: t' => if (c =? CR) && (d =? LF) then LF :: crlf_to_lf t' else c :: crlf_to_lf t
      | [] => [c]
      end
  end.

(** Step 3: every remaining CR becomes LF. *)
Definition cr_to_lf (s : jsstring) : jsstring :=
  map (fun c => if c =? CR then LF else c) s.

(** Step 4: a space or tab is dropped when what is kept after it is empty or
    starts with a line terminator. *)
Fixpoint rtrim_lines (s : jsstring) : jsstring :=
  match s with
  | [] => []
  | c :: t =>
      let r := rtrim_lines t in
      if is_ws c && at_eol true r then r else c :: r
  end.

(** Step 5: the linefeeds at the end are dropped and one is appended. *)
Fixpoint drop_final_newlines (s : jsstring) : jsstring :=
  match s with
  | [] => []
  | c :: t =>
      match drop_final_newlines t with
      | [] => if c =? LF then [] else [c]
      | r => c :: r
      end
  end.

Definition ensure_final_newline (s : jsstring) : jsstring :=
  drop_final_newlines s ++ [LF].

(** The spaces and tabs at the end of one line dropped. *)
Fixpoint rtrim (s : jsstring) : jsstring :=
  match s with
  | [] => []
  | c :: t =>
      match rtrim t with
      | [] => if is_ws c then [] else [c]
      | r => c :: r
      end
  end.

(** The longest prefix of characters satisfying [f], and what follows it. *)
Fixpoint take_while (f : char -> bool) (s : jsstring) : jsstring :=
  match s with
  | c :: t => if f c then c :: take_while f t else []
  | [] => []
  end.

Fixpoint drop_while (f : char -> bool) (s : jsstring) : jsstring :=
  match s with
  | c :: t => if f c then drop_while f t else s
  | [] => []
  end.

(** The text is empty or ends in a line terminator: it is made of whole
    lines. *)
Definition whole_lines (s : jsstring) : bool :=
  match last s with
  | None => true
  | Some c => is_line_terminator c
  end.

(** Properties of a normalised text, as decidable predicates. *)

(** No space or tab stands right before a line terminator or at the end. *)
Fixpoint no_trailing_ws (s : jsstring) : bool :=
  match s with
  | [] => true
  | c :: t => negb (is_ws c && at_eol true t) && no_trailing_ws t
  end.

(** The text ends in a linefeed that no other linefeed precedes. *)
Definition ends_in_one_lf (s : jsstring) : Prop :=
  exists body, s = body ++ [LF] /\ last body <> Some LF.

(** The first character of what [f] returns is the first character of its
    input or a line terminator. *)
Definition head_kept (f : jsstring -> jsstring) : Prop :=
  forall s h, head (f s) = Some h -> head s = Some h \/ is_line_terminator h = true.

(** The three properties together. *)
Definition normal (s : jsstring) : Prop :=
  ~ In CR s /\ no_trailing_ws s = true /\ ends_in_one_lf s.

(** The characters that normalizeContent leaves alone: anything but the
    byte-order mark, CR, LF, space and tab. *)
Definition visible (c : char) : bool :=
  negb (c =? BOM) && negb (c =? CR) && negb (c =? LF) && negb (is_ws c).

(** A line: a text without CR and without LF. *)
Definition plain (l : jsstring) : Prop := ~ In CR l /\ ~ In LF l.

(** Lines, each followed by the same line ending. *)
Definition unlines_with (ending : jsstring) (lines : list jsstring) : jsstring :=
  concat (map (fun l => l ++ ending) lines).

(** ** The catalog (lines 17-214) *)

Record Dictionary := {
  code : string;
  folder : string;
  name : string;
  license : string;
  licenseFile : string;
  dicPath : option string;
  affPath : option string
}.

Definition entry (c f n l lf : string) : Dictionary :=
  {| code := c; folder := f; name := n; license := l; licenseFile := lf;
     dicPath := None; affPath := None |}.

Definition entry_with (c f n l lf dp ap : string) : Dictionary :=
  {| code := c; folder := f; name := n; license := l; licenseFile := lf;
     dicPath := Some dp; affPath := Some ap |}.

Definition LIBREOFFICE_DICTIONARIES : list Dictionary := [
  entry "af" "af_ZA" "Afrikaans" "LGPL-3.0" "README_af_ZA.txt";
  entry "an" "an_ES" "Aragonese" "GPL-3.0" "LICENSES-en.txt";
  entry "ar" "ar" "Arabic" "GPL-3.0" "COPYING.txt";
  entry "as" "as_IN" "Assamese" "GPL-2.0" "COPYING";
  entry_with "be" "be_BY" "Belarusian" "GPL-3.0" "README_be_BY.txt"
    "be-official.dic" "be-official.aff";
  entry "bn" "bn_BD" "Bengali" "GPL-2.0" "COPYING";
  entry "bo" "bo" "Tibetan" "GPL-3.0" "LICENSE-en.txt";
  entry "bs" "bs_BA" "Bosnian" "GPL-3.0" "registration/LICENSE";
  entry_with "ckb" "ckb" "Central Kurdish" "GPL-3.0" "LICENSES-en.txt"
    "dictionaries/ckb.dic" "dictionaries/ckb.aff";
  entry "gu" "gu_IN" "Gujarati" "GPL-3.0" "COPYING";
  entry "gug" "gug" "Guarani" "GPL-3.0" "LICENSE.txt";
  entry "hi" "hi_IN" "Hindi" "GPL-2.0" "COPYING";
  entry_with "id" "id" "Indonesian" "GPL-3.0" "LICENSE-dict"
    "id_ID.dic" "id_ID.aff";
  entry "it" "it_IT" "Italian" "GPL-3.0" "README_it_IT.txt";
  entry "kn" "kn_IN" "Kannada" "GPL-3.0" "COPYING";
  entry "kmr-Latn" "kmr_Latn" "Kurmanji" "GPL-3.0" "gpl-3.0.txt";
  entry "lo" "lo_LA" "Lao" "GPL-3.0" "README_lo_LA.txt";
  entry "mr" "mr_IN" "Marathi" "LGPL-3.0" "README_mr_IN.txt";
  entry "or" "or_IN" "Odia" "GPL-2.0" "COPYING";
  entry "pa" "pa_IN" "Punjabi" "GPL-2.0" "COPYING";
  entry "sa" "sa_IN" "Sanskrit" "GPL-3.0" "COPYING";
  entry "si" "si_LK" "Sinhala" "GPL-3.0" "COPYING";
  entry "sq" "sq_AL" "Albanian" "GPL-3.0" "README_sq_AL.txt";
  entry "sw" "sw_TZ" "Swahili" "LGPL-3.0" "README_sw_TZ.txt";
  entry "ta" "ta_IN" "Tamil" "GPL-3.0" "COPYING";
  entry "te" "te_IN" "Telugu" "GPL-2.0" "COPYING";
  entry "th" "th_TH" "Thai" "LGPL-2.1" "README_th_TH.txt"
].

Definition LIBREOFFICE_BASE_URL : string :=
  "https://raw.githubusercontent.com/LibreOffice/dictionaries/master".

(** ** File names and locations (lines 238, 250-258, 274, 304) *)

(** [String.prototype.includes]. *)
Fixpoint includes (s sub : string) : bool :=
  String.prefix sub s ||
  match s with
  | EmptyString => false
  | String _ s' => includes s' sub
  end.

(** [a || b] on an optional string: an absent or empty [a] is falsy. *)
Definition or_else (a : option string) (b : string) : string :=
  match a with
  | Some (String c s) => String c s
  | _ => b
  end.

Definition dicFile (dict : Dictionary) : string :=
  let folder := folder dict in
  or_else (dicPath dict)
    ((if includes folder "_" then folder else folder) +:+ ".dic").

Definition affFile (dict : Dictionary) : string :=
  let folder := folder dict in
  or_else (affPath dict)
    ((if includes folder "_" then folder else folder) +:+ ".aff").

Definition dicUrl (dict : Dictionary) : string :=
  LIBREOFFICE_BASE_URL +:+ "/" +:+ folder dict +:+ "/" +:+ dicFile dict.

Definition affUrl (dict : Dictionary) : string :=
  LIBREOFFICE_BASE_URL +:+ "/" +:+ folder dict +:+ "/" +:+ affFile dict.

Definition licenseUrl (dict : Dictionary) : string :=
  LIBREOFFICE_BASE_URL +:+ "/" +:+ folder dict +:+ "/" +:+ licenseFile dict.

(** The derivation rule in the words of the specification: the folder value
    with the extension appended. *)
Definition spec_default_file (folder ext : string) : string := folder +:+ ext.

(** [path.join] of a directory and one plain segment (none of the segments
    the script joins is empty, [.] or [..], or holds a separator). *)
Definition path_join (dir segment : string) : string :=
  dir +:+ "/" +:+ segment.


(** ** The world of the script: file system, network, console *)

(** Every call the script makes to the outside, in order. *)
Inductive event :=
| ExistsSync (path : string)
| Mkdir (path : string)
| Fetch (url : string)
| WriteFile (path : string) (content : jsstring)
| ConsoleLog (line : string).

Record World := {
  files : gmap string jsstring;   (* path -> content *)
  dirs : gset string;
  trace : list event
}.

(** What the script cannot decide: the answers of the network and the
    failures of the file system, as functions of the URL and of the path
    (one descriptor asks for each URL and writes each path at most once).
    An exception is its message. *)
Record Response := {
  status : N;
  body : string + jsstring        (* text() rejects, or the decoded text *)
}.

Record Env := {
  net : string -> string + Response;     (* fetch(url) rejects, or responds *)
  mkdir_error : string -> option string;
  write_error : string -> option string
}.

(** [response.ok]: the status is in the range 200-299. *)
Definition ok (r : Response) : bool := (200 <=? status r) && (status r <=? 299).

(** A computation returns a value or throws, and leaves a world. *)
Inductive outcome (A : Type) : Type :=
| Returned (a : A)
| Thrown (message : string).
Arguments Returned {A} a.
Arguments Thrown {A} message.

Definition Eff (A : Type) : Type := World -> outcome A * World.

Definition ret {A} (a : A) : Eff A := fun w => (Returned a, w).

Definition bind {A B} (m : Eff A) (f : A -> Eff B) : Eff B := fun w =>
  match m w with
  | (Returned a, w') => f a w'
  | (Thrown e, w') => (Thrown e, w')
  end.

Notation "'do' x <- m ; k" := (bind m (fun x => k))
  (at level 10, x name, m at level 100, k at level 200, only parsing).
Notation "'run' m ; k" := (bind m (fun _ => k))
  (at level 10, m at level 100, k at level 200, only parsing).

Definition throw {A} (message : string) : Eff A := fun w => (Thrown message, w).

(** [try { m } catch (error) { h(message of error) }] *)
Definition try_catch {A} (m : Eff A) (h : string -> Eff A) : Eff A := fun w =>
  match m w with
  | (Returned a, w') => (Returned a, w')
  | (Thrown e, w') => h e w'
  end.

Definition record (e : event) (w : World) : World :=
  {| files := files w; dirs := dirs w; trace := trace w ++ [e] |}.

Definition console_log (line : string) : Eff unit := fun w =>
  (Returned tt, record (ConsoleLog line) w).

Definition existsSync (path : string) : Eff bool := fun w =>
  (Returned (bool_decide (is_Some (files w !! path)) || bool_decide (path ∈ dirs w)),
   record (ExistsSync path) w).

Section Script.

Variable DICTIONARIES_DIR : string.
Variable env : Env.

Definition mkdir (path : string) : Eff unit := fun w =>
  let w := record (Mkdir path) w in
  match mkdir_error env path with
  | Some e => (Thrown e, w)
  | None => (Returned tt, {| files := files w; dirs := {[path]} ∪ dirs w; trace := trace w |})
  end.

Definition writeFile (path : string) (content : jsstring) : Eff unit := fun w =>
  let w := record (WriteFile path content) w in
  match write_error env path with
  | Some e => (Thrown e, w)
  | None => (Returned tt, {| files := <[path := content]> (files w); dirs := dirs w; trace := trace w |})
  end.

Definition fetch (url : string) : Eff Response := fun w =>
  let w := record (Fetch url) w in
  match net env url with
  | inl e => (Thrown e, w)
  | inr r => (Returned r, w)
  end.

Definition text (r : Response) : Eff jsstring :=
  match body r with
  | inl e => throw e
  | inr t => ret t
  end.

(** ** processDictionary (lines 237-318)

    A [return] inside a [catch] block is the [false] that the guarded block
    hands to the code after it. *)

Definition download_dic (dict : Dictionary) (dicPath : string) : Eff bool :=
  try_catch
    (do response <- fetch (dicUrl dict);
     run (if negb (ok response)
         then throw ("HTTP " +:+ pretty (status response)) else ret tt);
     do content <- text response;
     let content := normalizeContent content in
     run writeFile dicPath content;
     run console_log "    ✓ index.dic";
     ret true)
    (fun message =>
     run console_log ("    ✗ Failed to download .dic: " +:+ message);
     ret false).

Definition download_aff (dict : Dictionary) (affPath : string) : Eff bool :=
  try_catch
    (do response <- fetch (affUrl dict);
     run (if negb (ok response)
         then throw ("HTTP " +:+ pretty (status response)) else ret tt);
     do content <- text response;
     let content := set_utf8 content in
     let content := normalizeContent content in
     run writeFile affPath content;
     run console_log "    ✓ index.aff";
     ret true)
    (fun message =>
     run console_log ("    ✗ Failed to download .aff: " +:+ message);
     ret false).

Definition download_license (dict : Dictionary) (destDir : string) : Eff unit :=
  try_catch
    (do response <- fetch (licenseUrl dict);
     if ok response then
       do content <- text response;
       let content := normalizeContent content in
       run writeFile (path_join destDir "license") content;
       console_log "    ✓ license"
     else ret tt)
    (fun _ => console_log "    - No license file found").

Definition SOURCE_URL : string := "https://github.com/LibreOffice/dictionaries".

(** The string [s + '\n']. *)
Definition line (s : string) : jsstring := js s ++ [LF].

Definition processDictionary (dict : Dictionary) : Eff unit :=
  let destDir := path_join DICTIONARIES_DIR (code dict) in
  do present <- existsSync (path_join destDir "index.dic");
  if present then
    console_log ("  ✓ " +:+ code dict +:+ " (" +:+ name dict +:+ ") - already exists")
  else
    run console_log ("  Processing " +:+ code dict +:+ " (" +:+ name dict +:+ ")...");
    run mkdir destDir;
    do continue <- download_dic dict (path_join destDir "index.dic");
    if negb continue then ret tt else
    do continue <- download_aff dict (path_join destDir "index.aff");
    if negb continue then ret tt else
    run writeFile (path_join destDir ".spdx") (line (license dict));
    run console_log "    ✓ .spdx";
    run writeFile (path_join destDir ".source") (line SOURCE_URL);
    run console_log "    ✓ .source";
    run download_license dict destDir;
    console_log ("  ✓ " +:+ code dict +:+ " (" +:+ name dict +:+ ") - done").

(** ** main (lines 320-351) *)

(** The loop of lines 339-346 over a catalog. *)
Fixpoint process_all (catalog : list Dictionary) : Eff unit :=
  match catalog with
  | [] => ret tt
  | dict :: rest =>
      run try_catch (processDictionary dict)
           (fun message =>
            console_log ("  ✗ " +:+ code dict +:+ " failed: " +:+ message));
      process_all rest
  end.

Definition main : Eff unit :=
  run console_log "╔══════════════════════════════════════════════════════════════╗";
  run console_log "║  LibreOffice Dictionaries Downloader (Cross-platform)        ║";
  run console_log "╚══════════════════════════════════════════════════════════════╝";
  run console_log EmptyString;
  run console_log ("Adding " +:+ pretty (length LIBREOFFICE_DICTIONARIES)
                  +:+ " new dictionaries from LibreOffice...");
  run console_log EmptyString;
  run mkdir DICTIONARIES_DIR;
  run process_all LIBREOFFICE_DICTIONARIES;
  run console_log EmptyString;
  run console_log "Done! Now run: node --conditions development script/generate.js";
  console_log EmptyString.

End Script.

(** What one turn of the loop leaves: the world after [processDictionary],
    with the report of line 344 when it threw. *)
Definition after_descriptor (dir : string) (env : Env) (dict : Dictionary)
    (w : World) : World :=
  snd (try_catch (processDictionary dir env dict)
         (fun message => console_log ("  ✗ " +:+ code dict +:+ " failed: " +:+ message)) w).

(** The destination directory of a descriptor (line 238) and a file in it. *)
Definition destDir (dir : string) (dict : Dictionary) : string :=
  path_join dir (code dict).

Definition artifact (dir : string) (dict : Dictionary) (file : string) : string :=
  path_join (destDir dir dict) file.

(** A fetch that rejects or answers with a status outside 200-299. *)
Definition fetch_fails (env : Env) (url : string) : Prop :=
  match net env url with
  | inl _ => True
  | inr r => ok r = false
  end.

(** The text that a fetch gives when it succeeds: it responds, the status
    is in 200-299, and text() resolves. *)
Definition fetch_text (env : Env) (url : string) : option jsstring :=
  match net env url with
  | inr r => if ok r then match body r with inr t => Some t | inl _ => None end else None
  | inl _ => None
  end.

(** Nothing is at the path: existsSync answers false. *)
Definition absent (w : World) (path : string) : Prop :=
  files w !! path = None /\ path ∉ dirs w.

(** The file system does not fail in the destination directory. *)
Definition fs_works (env : Env) (dir : string) (dict : Dictionary) : Prop :=
  mkdir_error env (destDir dir dict) = None
  /\ forall file, write_error env (artifact dir dict file) = None.

(** What the console shows of a failed license fetch (lines 305-315): a
    line when the fetch rejected, nothing when the status was not a success. *)
Definition license_report (env : Env) (dict : Dictionary) : list event :=
  match net env (licenseUrl dict) with
  | inl _ => [ConsoleLog "    - No license file found"]
  | inr _ => []
  end.

(** The paths written by [fs.writeFile] calls of a trace, failed or not. *)
Definition written (t : list event) : list string :=
  omap (fun e => match e with WriteFile p _ => Some p | _ => None end) t.

Definition fetched (t : list event) : list string :=
  omap (fun e => match e with Fetch u => Some u | _ => None end) t.


(** A call to the outside without what it writes; console lines are no
    calls. *)
Inductive call :=
| CallExists (path : string)
| CallMkdir (path : string)
| CallFetch (url : string)
| CallWrite (path : string).

Definition calls (t : list event) : list call :=
  omap (fun e =>
          match e with
          | ExistsSync p => Some (CallExists p)
          | Mkdir p => Some (CallMkdir p)
          | Fetch u => Some (CallFetch u)
          | WriteFile p _ => Some (CallWrite p)
          | ConsoleLog _ => None
          end) t.

(** The calls of a run of processDictionary in which nothing fails, in the
    order of lines 241-310. *)
Definition PLAN (dir : string) (dict : Dictionary) : list call :=
  [CallExists (artifact dir dict "index.dic");
   CallMkdir (destDir dir dict);
   CallFetch (dicUrl dict);
   CallWrite (artifact dir dict "index.dic");
   CallFetch (affUrl dict);
   CallWrite (artifact dir dict "index.aff");
   CallWrite (artifact dir dict ".spdx");
   CallWrite (artifact dir dict ".source");
   CallFetch (licenseUrl dict);
   CallWrite (artifact dir dict "license")].

(** ** Proof steps on worlds *)

(** The writes and fetches of a world that is given event by event. *)
Ltac trace_simpl :=
  simpl; unfold written, fetched; rewrite ?omap_app; simpl; rewrite ?app_nil_r.

(** Two results that differ in how the trace is bracketed. *)
Ltac world_eq :=
  unfold console_log, record; simpl; rewrite <- ?app_assoc; simpl; reflexivity.

(** All the ways through processDictionary, one goal for each answer of the
    environment that the hypotheses leave open. *)
Ltac run_cases :=
  unfold processDictionary, download_dic, download_aff, download_license,
    bind, try_catch, existsSync, mkdir, fetch, text, writeFile, throw, ret,
    console_log;
  repeat (cbn [fst snd files dirs trace record negb orb andb];
    match goal with
    | H : ?P |- context [bool_decide ?P] => rewrite (bool_decide_eq_true_2 P H)
    | H : ~ ?P |- context [bool_decide ?P] => rewrite (bool_decide_eq_false_2 P H)
    | H : mkdir_error ?env ?p = _ |- context [mkdir_error ?env ?p] => rewrite H
    | H : net ?env ?u = _ |- context [net ?env ?u] => rewrite H
    | H : ok ?r = _ |- context [ok ?r] => rewrite H
    | H : body ?r = _ |- context [body ?r] => rewrite H
    | H : write_error ?env ?p = _ |- context [write_error ?env ?p] => rewrite H
    | |- context [bool_decide ?P] => destruct (bool_decide P) eqn:?
    | |- context [mkdir_error ?env ?p] => destruct (mkdir_error env p) eqn:?
    | |- context [net ?env ?u] => destruct (net env u) eqn:?
    | |- context [ok ?r] => destruct (ok r) eqn:?
    | |- context [body ?r] => destruct (body r) eqn:?
    | |- context [write_error ?env ?p] => destruct (write_error env p) eqn:?
    end);
  cbn [fst snd files dirs trace record negb orb andb].

(** ** Sample descriptors, worlds and environments *)

Module Sample.

Definition root : string := "dictionaries".

Definition aa : Dictionary := entry "aa" "aa_AA" "Alpha" "GPL-3.0" "COPYING".
Definition bb : Dictionary := entry "bb" "bb_BB" "Beta" "MPL-2.0" "LICENSE.txt".
Definition cc : Dictionary := entry "cc" "cc" "Gamma" "LGPL-3.0" "README_cc.txt".

Definition dic_text : jsstring := js "2" ++ [CR; LF] ++ js "ab " ++ [CR; LF] ++ js "cd".
Definition aff_text : jsstring :=
  js "# affix rules" ++ [LF] ++ js "SET ISO8859-1" ++ [CR; LF] ++ js "TRY abcd" ++ [LF].

Definition responds (code : N) (t : jsstring) : string + Response :=
  inr {| status := code; body := inr t |}.

(** Word lists and affix rules are served, license files are not found. *)
Definition serve (license_answer : string + Response) (url : string)
    : string + Response :=
  if includes url ".dic" then responds 200 dic_text
  else if includes url ".aff" then responds 200 aff_text
  else license_answer.

Definition not_found : string + Response := responds 404 (js "404: Not Found").

Definition env_no_license : Env :=
  {| net := serve not_found;
     mkdir_error := fun _ => None; write_error := fun _ => None |}.

Definition env_license_rejects : Env :=
  {| net := serve (inl "fetch failed");
     mkdir_error := fun _ => None; write_error := fun _ => None |}.

Definition env_nothing_found : Env :=
  {| net := fun _ => not_found;
     mkdir_error := fun _ => None; write_error := fun _ => None |}.

(** The directory of [bb] cannot be created. *)
Definition env_bb_denied : Env :=
  {| net := serve not_found;
     mkdir_error := fun p =>
       if String.eqb p (destDir root bb) then Some "EACCES: permission denied" else None;
     write_error := fun _ => None |}.

Definition empty_world : World := {| files := ∅; dirs := ∅; trace := [] |}.

(** [aa] has been downloaded before. *)
Definition world_with_aa : World :=
  {| files := {[ artifact root aa "index.dic" := js "1" ++ [LF] ++ js "ab" ++ [LF] ]};
     dirs := {[ destDir root aa ]};
     trace := [] |}.

End Sample.

(** ** More sample environments *)

Module Fixture.

Definition license_text : jsstring :=
  BOM :: js "GNU GENERAL PUBLIC LICENSE  " ++ [CR; LF] ++ js "Version 3" ++ [CR; LF; CR; LF].

(** Everything is served. *)
Definition env_all_served : Env :=
  {| net := Sample.serve (Sample.responds 200 license_text);
     mkdir_error := fun _ => None; write_error := fun _ => None |}.

(** The word list is served, the affix rules are not found. *)
Definition env_aff_missing : Env :=
  {| net := fun url =>
       if includes url ".dic" then Sample.responds 200 Sample.dic_text
       else Sample.not_found;
     mkdir_error := fun _ => None; write_error := fun _ => None |}.

(** Everything is served, one path cannot be written. *)
Definition env_write_denied (path message : string) : Env :=
  {| net := Sample.serve (Sample.responds 200 license_text);
     mkdir_error := fun _ => None;
     write_error := fun p => if String.eqb p path then Some message else None |}.

(** The root directory cannot be created. *)
Definition env_root_denied : Env :=
  {| net := Sample.serve Sample.not_found;
     mkdir_error := fun p =>
       if String.eqb p Sample.root then Some "EROFS: read-only file system" else None;
     write_error := fun _ => None |}.

(** [aa] and [cc] have been downloaded before. *)
Definition world_with_aa_cc : World :=
  {| files := {[ artifact Sample.root Sample.aa "index.dic" := js "1" ++ [LF];
                 artifact Sample.root Sample.cc "index.dic" := js "0" ++ [LF] ]};
     dirs := {[ destDir Sample.root Sample.aa; destDir Sample.root Sample.cc ]};
     trace := [] |}.

End Fixture.

(** * Properties *)

(** ** Sanity checks of the embedding on concrete inputs *)

Example normalize_ex1 :
  normalizeContent (BOM :: js "a  " ++ [CR; LF] ++ js "b" ++ [TAB; CR] ++ [LF; LF])
  = js "a" ++ [LF] ++ js "b" ++ [LF].
Proof. reflexivity. Qed.

Example normalize_ex2 : normalizeContent [] = [LF].
Proof. reflexivity. Qed.

Example normalize_ex3 :
  normalizeContent (js "a " ++ [LS] ++ js " b " ++ [LF; SP; LF; TAB])
  = js "a" ++ [LS] ++ js " b" ++ [LF].
Proof. reflexivity. Qed.

Example aff_ex1 :
  affContent (js "SET ISO8859-1" ++ [CR; LF] ++ js "TRY abc" ++ [LF] ++ js "SET x")
  = js "SET UTF-8" ++ [LF] ++ js "TRY abc" ++ [LF] ++ js "SET x" ++ [LF].
Proof. reflexivity. Qed.

(** A global replace of a pattern that can match the empty string:
    ["a\n".replace(/\n*$/g, "X")] is ["aXX"]. *)
Example replace_all_empty_match :
  replace (RegExp [Star (Lit LF); Eol] true false) (js "X") (js "a" ++ [LF])
  = js "aXX".
Proof. reflexivity. Qed.

(** ** The regexp semantics *)

Lemma is_ws_atom c : atom_matches (OneOf [SP; TAB]) c = is_ws c.
Proof. unfold is_ws. simpl. by rewrite orb_false_r. Qed.

Lemma is_ws_not_terminator c : is_ws c = true -> is_line_terminator c = false.
Proof.
  unfold is_ws. intros H.
  apply orb_true_iff in H. destruct H as [H|H];
    apply N.eqb_eq in H; subst c; reflexivity.
Qed.

Lemma prev_after_nil prev : prev_after prev [] = prev.
Proof. reflexivity. Qed.

Lemma prev_after_cons prev c a : prev_after prev (c :: a) = prev_after (Some c) a.
Proof. reflexivity. Qed.

Section ReplaceAll.

Variables (ml : bool) (p : pattern) (repl : jsstring).

Lemma replace_all_skip a : forall prev rest,
  replace_all ml p repl (length a) prev (a ++ rest)
  = replace_all ml p repl 0 (prev_after prev a) rest.
Proof.
  induction a as [|c a IH]; intros prev rest.
  - reflexivity.
  - rewrite prev_after_cons. simpl. apply IH.
Qed.

Lemma replace_all_hit prev c a rest :
  match_pattern ml p prev (c :: a ++ rest) = Some rest ->
  replace_all ml p repl 0 prev (c :: a ++ rest)
  = repl ++ replace_all ml p repl 0 (prev_after (Some c) a) rest.
Proof.
  intros H. simpl. rewrite H.
  replace (S (length (a ++ rest)) - length rest)%nat with (S (length a))
    by (rewrite length_app; lia).
  by rewrite replace_all_skip.
Qed.

Lemma replace_all_miss prev c s :
  match_pattern ml p prev (c :: s) = None ->
  replace_all ml p repl 0 prev (c :: s) = c :: replace_all ml p repl 0 (Some c) s.
Proof. intros H. simpl. by rewrite H. Qed.

End ReplaceAll.

(** ** Each replace call of normalizeContent computes its closed form *)

Lemma replace_bom_later s : forall c,
  replace_first false [Bol; One (Lit BOM)] [] (Some c) s = s.
Proof. induction s as [|d s IH]; intros c; simpl; [done | by rewrite IH]. Qed.

Lemma replace_bom s : replace re_bom [] s = strip_bom s.
Proof.
  destruct s as [|c s]; [done|].
  unfold replace, re_bom; simpl.
  destruct (c =? BOM); simpl; [done | by rewrite replace_bom_later].
Qed.

Lemma replace_crlf_from s :
  (forall prev, replace_all false [One (Lit CR); One (Lit LF)] [LF] 0 prev s = crlf_to_lf s)
  /\ (forall c prev,
        replace_all false [One (Lit CR); One (Lit LF)] [LF] 0 prev (c :: s)
        = crlf_to_lf (c :: s)).
Proof.
  induction s as [|d t [IH1 IH2]].
  - split; [done|]. intros c prev. simpl. by destruct (c =? CR).
  - split; [intros prev; apply IH2|].
    intros c prev.
    destruct ((c =? CR) && (d =? LF)) eqn:E.
    + apply andb_true_iff in E as [Ec Ed].
      rewrite (replace_all_hit _ _ _ prev c [d] t).
      * simpl. rewrite Ec, Ed. simpl. by rewrite IH1.
      * simpl. by rewrite Ec, Ed.
    + rewrite replace_all_miss.
      * rewrite IH2. simpl. simpl in E. by rewrite E.
      * simpl. simpl in E. destruct (c =? CR); [|done]. simpl in E. by rewrite E.
Qed.

Lemma replace_crlf s : replace re_crlf [LF] s = crlf_to_lf s.
Proof. apply replace_crlf_from. Qed.

Lemma replace_cr_from s : forall prev,
  replace_all false [One (Lit CR)] [LF] 0 prev s = cr_to_lf s.
Proof.
  induction s as [|c s IH]; intros prev; [done|].
  destruct (c =? CR) eqn:E.
  - rewrite (replace_all_hit _ _ _ prev c [] s); simpl; rewrite E; [|done].
    by rewrite IH.
  - rewrite replace_all_miss; simpl; rewrite E; [|done].
    by rewrite IH.
Qed.

Lemma replace_cr s : replace re_cr [LF] s = cr_to_lf s.
Proof. apply replace_cr_from. Qed.

Lemma take_drop_while f s : take_while f s ++ drop_while f s = s.
Proof. induction s as [|c s IH]; simpl; [done|]. destruct (f c); simpl; congruence. Qed.

Lemma star_ws_eol s : forall prev,
  star_match (OneOf [SP; TAB]) (match_pattern true [Eol]) prev s
  = if at_eol true (drop_while is_ws s) then Some (drop_while is_ws s) else None.
Proof.
  induction s as [|c s IH]; intros prev; [done|].
  cbn [star_match drop_while]. rewrite is_ws_atom.
  destruct (is_ws c) eqn:E; [|done].
  rewrite IH. destruct (at_eol true (drop_while is_ws s)); [done|].
  simpl. by rewrite (is_ws_not_terminator c E).
Qed.

Lemma match_trailing_ws prev c s :
  match_pattern true [Plus (OneOf [SP; TAB]); Eol] prev (c :: s)
  = if is_ws c && at_eol true (drop_while is_ws s)
    then Some (drop_while is_ws s) else None.
Proof.
  cbn [match_pattern]. rewrite is_ws_atom.
  destruct (is_ws c); [|done]. by rewrite star_ws_eol.
Qed.

Lemma at_eol_rtrim_lines s : at_eol true (rtrim_lines s) = at_eol true (drop_while is_ws s).
Proof.
  induction s as [|c s IH]; [done|].
  cbn [rtrim_lines drop_while]. destruct (is_ws c) eqn:E; simpl.
  - rewrite <- IH. destruct (at_eol true (rtrim_lines s)) eqn:E'; [done|].
    simpl. by rewrite (is_ws_not_terminator c E).
  - done.
Qed.

Lemma rtrim_lines_drop_ws s :
  at_eol true (drop_while is_ws s) = true ->
  rtrim_lines s = rtrim_lines (drop_while is_ws s).
Proof.
  induction s as [|c s IH]; [done|].
  cbn [rtrim_lines drop_while]. destruct (is_ws c) eqn:E.
  - intros H. rewrite at_eol_rtrim_lines, H. simpl. by apply IH.
  - intros _. cbn [rtrim_lines]. by rewrite E.
Qed.

Lemma length_drop_while f s : (length (drop_while f s) <= length s)%nat.
Proof. induction s as [|c s IH]; simpl; [lia|]. destruct (f c); simpl; lia. Qed.

Lemma replace_trailing_ws_from n : forall s prev,
  (length s <= n)%nat ->
  replace_all true [Plus (OneOf [SP; TAB]); Eol] [] 0 prev s = rtrim_lines s.
Proof.
  induction n as [|n IH]; intros [|c s] prev Hn; simpl in Hn; try done; try lia.
  destruct (is_ws c && at_eol true (drop_while is_ws s)) eqn:E.
  - rewrite <- (take_drop_while is_ws s) at 1.
    rewrite replace_all_hit.
    + rewrite IH by (pose proof (length_drop_while is_ws s); lia).
      apply andb_true_iff in E as [Ec Ee].
      cbn [rtrim_lines]. rewrite at_eol_rtrim_lines, Ec, Ee. simpl.
      by rewrite <- rtrim_lines_drop_ws.
    + by rewrite take_drop_while, match_trailing_ws, E.
  - rewrite replace_all_miss by (by rewrite match_trailing_ws, E).
    rewrite IH by lia.
    cbn [rtrim_lines]. by rewrite at_eol_rtrim_lines, E.
Qed.

Lemma replace_trailing_ws s : replace re_trailing_ws [] s = rtrim_lines s.
Proof. by apply (replace_trailing_ws_from (length s)). Qed.

Lemma star_lf_eol s : forall prev,
  star_match (Lit LF) (match_pattern false [Eol]) prev s
  = match drop_final_newlines s with [] => Some [] | _ => None end.
Proof.
  induction s as [|c s IH]; intros prev; [done|].
  cbn [star_match drop_final_newlines atom_matches]. rewrite IH.
  destruct (drop_final_newlines s), (c =? LF); done.
Qed.

Lemma drop_final_newlines_cons c s :
  drop_final_newlines (c :: s) <> [] ->
  drop_final_newlines (c :: s) = c :: drop_final_newlines s.
Proof.
  cbn [drop_final_newlines].
  destruct (drop_final_newlines s), (c =? LF); done.
Qed.

Lemma replace_final_newlines_from s : forall prev,
  replace_first false [Star (Lit LF); Eol] [LF] prev s = ensure_final_newline s.
Proof.
  unfold ensure_final_newline.
  induction s as [|c s IH]; intros prev; [done|].
  cbn [replace_first match_pattern]. rewrite star_lf_eol.
  destruct (drop_final_newlines (c :: s)) eqn:E; [done|].
  rewrite IH, <- E, drop_final_newlines_cons; [done|].
  by rewrite E.
Qed.

Lemma replace_final_newlines s :
  replace re_final_newlines [LF] s = ensure_final_newline s.
Proof. apply replace_final_newlines_from. Qed.

(** normalizeContent is the composition of the five closed forms. *)
Lemma normalizeContent_closed s :
  normalizeContent s
  = ensure_final_newline (rtrim_lines (cr_to_lf (crlf_to_lf (strip_bom s)))).
Proof.
  unfold normalizeContent.
  by rewrite replace_bom, replace_crlf, replace_cr, replace_trailing_ws,
    replace_final_newlines.
Qed.

(** ** What a normalised text looks like *)

Lemma in_rtrim_lines c s : In c (rtrim_lines s) -> In c s.
Proof.
  induction s as [|d s IH]; [done|].
  cbn [rtrim_lines]. destruct (is_ws d && at_eol true (rtrim_lines s)); simpl; tauto.
Qed.

Lemma in_drop_final_newlines c s : In c (drop_final_newlines s) -> In c s.
Proof.
  induction s as [|d s IH]; [done|].
  cbn [drop_final_newlines].
  destruct (drop_final_newlines s) as [|e r]; [destruct (d =? LF)|]; simpl in *; tauto.
Qed.

Lemma not_in_cr_to_lf s : ~ In CR (cr_to_lf s).
Proof.
  unfold cr_to_lf. rewrite in_map_iff. intros (c & Hc & _).
  destruct (c =? CR) eqn:E; [done|]. apply N.eqb_neq in E. congruence.
Qed.

Lemma no_trailing_ws_rtrim_lines s : no_trailing_ws (rtrim_lines s) = true.
Proof.
  induction s as [|c s IH]; [done|].
  cbn [rtrim_lines].
  destruct (is_ws c && at_eol true (rtrim_lines s)) eqn:E; [done|].
  cbn [no_trailing_ws]. by rewrite E, IH.
Qed.

Lemma drop_final_newlines_nil s : drop_final_newlines s = [] -> at_eol true s = true.
Proof.
  destruct s as [|c s]; [done|]. cbn [drop_final_newlines].
  destruct (drop_final_newlines s); [|done].
  destruct (c =? LF) eqn:E; [|done]. apply N.eqb_eq in E. by subst.
Qed.

Lemma drop_final_newlines_head s d r :
  drop_final_newlines s = d :: r -> exists t, s = d :: t.
Proof.
  destruct s as [|c s]; [done|]. cbn [drop_final_newlines].
  destruct (drop_final_newlines s); [destruct (c =? LF)|]; intros H;
    inversion H; eauto.
Qed.

Lemma no_trailing_ws_ensure_final_newline s :
  no_trailing_ws s = true -> no_trailing_ws (ensure_final_newline s) = true.
Proof.
  unfold ensure_final_newline.
  induction s as [|c s IH]; [done|].
  cbn [no_trailing_ws drop_final_newlines]. intros [Hc Hs]%andb_true_iff.
  destruct (drop_final_newlines s) as [|d r] eqn:E.
  - rewrite (drop_final_newlines_nil s E) in Hc.
    destruct (c =? LF); [done|]. simpl.
    change (is_line_terminator LF) with true. by rewrite Hc.
  - destruct (drop_final_newlines_head _ _ _ E) as [t ->].
    change ((c :: d :: r) ++ [LF]) with (c :: (d :: r) ++ [LF]).
    cbn [no_trailing_ws]. rewrite (IH Hs), andb_true_r. exact Hc.
Qed.

Lemma last_drop_final_newlines s : last (drop_final_newlines s) <> Some LF.
Proof.
  induction s as [|c s IH]; [done|].
  cbn [drop_final_newlines].
  destruct (drop_final_newlines s) as [|d r]; [|exact IH].
  destruct (c =? LF) eqn:E; [done|]. apply N.eqb_neq in E. simpl. congruence.
Qed.

Lemma no_trailing_ws_split s a c b :
  no_trailing_ws s = true -> s = a ++ c :: b -> is_ws c = true ->
  at_eol true b = false.
Proof.
  intros H -> Hc. induction a as [|d a IH]; simpl in H.
  - rewrite Hc in H. simpl in H. apply andb_true_iff in H as [H _].
    by apply negb_true_iff in H.
  - apply andb_true_iff in H as [_ H]. by apply IH.
Qed.

Lemma normalizeContent_no_cr x : ~ In CR (normalizeContent x).
Proof.
  rewrite normalizeContent_closed. unfold ensure_final_newline.
  rewrite in_app_iff. intros [H|[H|[]]]; [|done].
  by apply in_drop_final_newlines, in_rtrim_lines, not_in_cr_to_lf in H.
Qed.

Lemma normalizeContent_no_trailing_ws x : no_trailing_ws (normalizeContent x) = true.
Proof.
  rewrite normalizeContent_closed.
  apply no_trailing_ws_ensure_final_newline, no_trailing_ws_rtrim_lines.
Qed.

Lemma normalizeContent_ends_in_one_lf x : ends_in_one_lf (normalizeContent x).
Proof.
  rewrite normalizeContent_closed. eexists. split; [reflexivity|].
  apply last_drop_final_newlines.
Qed.

Lemma normalizeContent_normal x : normal (normalizeContent x).
Proof.
  split; [apply normalizeContent_no_cr|].
  split; [apply normalizeContent_no_trailing_ws | apply normalizeContent_ends_in_one_lf].
Qed.

(** C2: for every input, the output of normalizeContent holds no carriage
    return; no space or tab stands right before a linefeed (no line ends in
    one), nor before any other line terminator; and the output ends in
    exactly one linefeed: it is some body followed by a linefeed, and the
    body does not end in a linefeed. *)
Theorem normalizeContent_output (x : jsstring) :
  ~ In CR (normalizeContent x)
  /\ (forall a c b, normalizeContent x = a ++ c :: LF :: b -> c <> SP /\ c <> TAB)
  /\ (forall a c l b, normalizeContent x = a ++ c :: l :: b ->
        is_line_terminator l = true -> c <> SP /\ c <> TAB)
  /\ (exists body, normalizeContent x = body ++ [LF] /\ last body <> Some LF).
Proof.
  assert (forall a c l b, normalizeContent x = a ++ c :: l :: b ->
            is_line_terminator l = true -> c <> SP /\ c <> TAB) as Hlines.
  { intros a c l b E Hl.
    assert (is_ws c = false) as H.
    { destruct (is_ws c) eqn:Hc; [|done].
      pose proof (no_trailing_ws_split _ _ _ _
                    (normalizeContent_no_trailing_ws x) E Hc) as Hb.
      simpl in Hb. congruence. }
    unfold is_ws in H. apply orb_false_iff in H as [H1 H2].
    by apply N.eqb_neq in H1, H2. }
  split; [apply normalizeContent_no_cr|].
  split; [intros a c b E; by apply (Hlines a c LF b)|].
  split; [exact Hlines | apply normalizeContent_ends_in_one_lf].
Qed.

(** ** Normalising a normalised text *)

Lemma crlf_to_lf_id s : ~ In CR s -> crlf_to_lf s = s.
Proof.
  induction s as [|c s IH]; [done|]. intros H.
  assert ((c =? CR) = false) as E by (apply N.eqb_neq; intros ->; apply H; by left).
  cbn [crlf_to_lf]. rewrite E. destruct s as [|d t]; [done|].
  simpl. f_equal. apply IH. intros H'. apply H. by right.
Qed.

Lemma cr_to_lf_id s : ~ In CR s -> cr_to_lf s = s.
Proof.
  induction s as [|c s IH]; [done|]. intros H. simpl.
  assert ((c =? CR) = false) as -> by (apply N.eqb_neq; intros ->; apply H; by left).
  f_equal. apply IH. intros H'. apply H. by right.
Qed.

Lemma rtrim_lines_id s : no_trailing_ws s = true -> rtrim_lines s = s.
Proof.
  induction s as [|c s IH]; [done|].
  cbn [no_trailing_ws rtrim_lines]. intros [Hc Hs]%andb_true_iff.
  rewrite (IH Hs). apply negb_true_iff in Hc. by rewrite Hc.
Qed.

Lemma drop_final_newlines_app_lf a :
  last a <> Some LF -> drop_final_newlines (a ++ [LF]) = a.
Proof.
  induction a as [|c a IH]; [done|]. intros H.
  change ((c :: a) ++ [LF]) with (c :: a ++ [LF]). cbn [drop_final_newlines].
  destruct a as [|d a].
  - simpl. destruct (c =? LF) eqn:E; [|done].
    apply N.eqb_eq in E. subst. by destruct H.
  - rewrite IH; [done|]. exact H.
Qed.

Lemma ensure_final_newline_id s : ends_in_one_lf s -> ensure_final_newline s = s.
Proof.
  intros (body & -> & H). unfold ensure_final_newline.
  by rewrite drop_final_newlines_app_lf.
Qed.

Lemma normal_strip_bom s : normal s -> normal (strip_bom s).
Proof.
  intros (Hcr & Hws & body & -> & Hlast).
  destruct body as [|c body]; [by repeat split; try exists []|].
  simpl. destruct (c =? BOM) eqn:E; [|by repeat split; try exists (c :: body)].
  simpl in Hcr, Hws. apply andb_true_iff in Hws as [_ Hws].
  split; [tauto|]. split; [done|]. exists body. split; [done|].
  destruct body; [done | exact Hlast].
Qed.

(** On a normalised text, only the removal of a byte-order mark is left to do. *)
Lemma normalizeContent_of_normal s : normal s -> normalizeContent s = strip_bom s.
Proof.
  intros H. apply normal_strip_bom in H as (Hcr & Hws & Hlf).
  rewrite normalizeContent_closed.
  by rewrite crlf_to_lf_id, cr_to_lf_id, rtrim_lines_id, ensure_final_newline_id.
Qed.

Lemma normalizeContent_twice x :
  normalizeContent (normalizeContent x) = strip_bom (normalizeContent x).
Proof. apply normalizeContent_of_normal, normalizeContent_normal. Qed.

Lemma head_kept_crlf_to_lf : head_kept crlf_to_lf.
Proof.
  intros [|c [|d t]] h; simpl; [done | by left |].
  destruct ((c =? CR) && (d =? LF)); simpl; intros [= <-]; [by right | by left].
Qed.

Lemma head_kept_cr_to_lf : head_kept cr_to_lf.
Proof.
  intros [|c s] h; simpl; [done|].
  destruct (c =? CR); intros [= <-]; [by right | by left].
Qed.

Lemma head_kept_rtrim_lines : head_kept rtrim_lines.
Proof.
  intros [|c s] h; [done|]. cbn [rtrim_lines].
  destruct (is_ws c && at_eol true (rtrim_lines s)) eqn:E; [|by left].
  apply andb_true_iff in E as [_ E]. intros H.
  destruct (rtrim_lines s); [done|]. simpl in H, E. right. congruence.
Qed.

Lemma head_kept_ensure_final_newline : head_kept ensure_final_newline.
Proof.
  intros s h. unfold ensure_final_newline.
  destruct (drop_final_newlines s) as [|d r] eqn:E; simpl.
  - intros [= <-]. by right.
  - intros [= <-]. destruct (drop_final_newlines_head _ _ _ E) as [t ->]. by left.
Qed.

Lemma head_normalizeContent x h :
  head (normalizeContent x) = Some h ->
  head (strip_bom x) = Some h \/ is_line_terminator h = true.
Proof.
  rewrite normalizeContent_closed. intros H.
  apply head_kept_ensure_final_newline in H as [H|H]; [|by right].
  apply head_kept_rtrim_lines in H as [H|H]; [|by right].
  apply head_kept_cr_to_lf in H as [H|H]; [|by right].
  apply head_kept_crlf_to_lf in H as [H|H]; [by left | by right].
Qed.

Lemma strip_bom_id s : head s <> Some BOM -> strip_bom s = s.
Proof.
  destruct s as [|c s]; [done|]. simpl. intros H.
  destruct (c =? BOM) eqn:E; [|done]. apply N.eqb_eq in E. by subst.
Qed.

Lemma head_strip_bom x :
  (forall t, x <> BOM :: BOM :: t) -> head (strip_bom x) <> Some BOM.
Proof.
  intros H. destruct x as [|c x]; [done|]. simpl.
  destruct (c =? BOM) eqn:E.
  - apply N.eqb_eq in E. subst. destruct x as [|d x]; [done|].
    simpl. intros [= ->]. by apply (H x).
  - apply N.eqb_neq in E. simpl. congruence.
Qed.

(** C1, as the specification states it, fails: with two byte-order marks
    at the start, the first pass removes one and the second pass the other. *)
Lemma normalizeContent_not_idempotent :
  normalizeContent [BOM; BOM] = [BOM; LF]
  /\ normalizeContent (normalizeContent [BOM; BOM]) = [LF]
  /\ normalizeContent (normalizeContent [BOM; BOM]) <> normalizeContent [BOM; BOM].
Proof. repeat split. by vm_compute. Qed.

(** C1 (amended): on every input that does not begin with two byte-order
    marks, normalizeContent is idempotent. *)
Theorem normalizeContent_idempotent (x : jsstring) :
  (forall t, x <> BOM :: BOM :: t) ->
  normalizeContent (normalizeContent x) = normalizeContent x.
Proof.
  intros H. rewrite normalizeContent_twice. apply strip_bom_id.
  intros Hh. apply head_normalizeContent in Hh as [Hh|Hh]; [|done].
  by apply (head_strip_bom x H).
Qed.

Lemma normalizeContent_idempotent_witness :
  normalizeContent (normalizeContent (BOM :: js "a " ++ [CR; LF; LF]))
  = normalizeContent (BOM :: js "a " ++ [CR; LF; LF]).
Proof. apply normalizeContent_idempotent. intros t H. discriminate H. Defined.

(** The condition of the amended C1 is also necessary. *)
Lemma normalizeContent_two_boms t :
  normalizeContent (normalizeContent (BOM :: BOM :: t))
  <> normalizeContent (BOM :: BOM :: t).
Proof.
  rewrite normalizeContent_twice.
  assert (exists w, normalizeContent (BOM :: BOM :: t) = BOM :: w) as [w ->].
  { rewrite normalizeContent_closed. simpl strip_bom.
    destruct t as [|d t]; [by eexists|].
    cbn [crlf_to_lf]. simpl andb. cbn [cr_to_lf map]. simpl (BOM =? CR).
    cbn [rtrim_lines]. simpl (is_ws BOM). simpl andb. cbv iota.
    unfold ensure_final_newline. cbn [drop_final_newlines].
    destruct (drop_final_newlines _); by eexists. }
  simpl. intros H. apply (f_equal length) in H. simpl in H. lia.
Qed.

(** ** The SET pragma rewrite *)

Lemma star_dot s : forall prev,
  star_match Dot (match_pattern true []) prev s = Some (drop_while dot s).
Proof.
  induction s as [|c s IH]; intros prev; [done|].
  cbn [star_match drop_while]. destruct (dot c); [|done]. by rewrite IH.
Qed.

Lemma drop_while_dot_app v post :
  forallb dot v = true -> at_eol true post = true ->
  drop_while dot (v ++ post) = post.
Proof.
  intros Hv Hp. induction v as [|c v IH]; simpl in *.
  - destruct post as [|d post]; [done|]. simpl in *. by rewrite Hp.
  - apply andb_true_iff in Hv as [Hc Hv]. simpl in Hc. rewrite Hc. by apply IH.
Qed.

Lemma match_set_line prev s :
  at_bol true prev = true ->
  match_pattern true set_pattern prev (js "SET " ++ s) = Some (drop_while dot s).
Proof. intros H. simpl. rewrite H. apply star_dot. Qed.

Lemma match_set_not_bol prev s :
  at_bol true prev = false -> match_pattern true set_pattern prev s = None.
Proof. intros H. simpl. by rewrite H. Qed.

(** A match that starts inside whole lines lies inside them. *)
Lemma match_set_app b rest prev :
  b <> [] -> whole_lines b = true ->
  match_pattern true set_pattern prev b = None ->
  match_pattern true set_pattern prev (b ++ rest) = None.
Proof.
  intros Hb Hl. cbn [match_pattern source re_set atom_matches].
  destruct (at_bol true prev); [|done].
  destruct b as [|x1 b]; [done|]. simpl.
  destruct (x1 =? 83) eqn:E1; [|done]. apply N.eqb_eq in E1. subst.
  destruct b as [|x2 b]; [done|]. simpl.
  destruct (x2 =? 69) eqn:E2; [|done]. apply N.eqb_eq in E2. subst.
  destruct b as [|x3 b]; [done|]. simpl.
  destruct (x3 =? 84) eqn:E3; [|done]. apply N.eqb_eq in E3. subst.
  destruct b as [|x4 b]; [done|]. simpl.
  destruct (x4 =? SP) eqn:E4; [|done].
  by rewrite star_dot.
Qed.

Lemma prev_after_last prev a :
  prev_after prev a = match last a with Some c => Some c | None => prev end.
Proof.
  revert prev. induction a as [|c a IH]; intros prev; [done|].
  rewrite prev_after_cons, IH. rewrite last_cons. by destruct (last a).
Qed.

Lemma at_bol_whole_lines pre : at_bol true (prev_after None pre) = whole_lines pre.
Proof. rewrite prev_after_last. unfold whole_lines. by destruct (last pre). Qed.

Lemma whole_lines_cons c b : b <> [] -> whole_lines (c :: b) = whole_lines b.
Proof. unfold whole_lines. by destruct b. Qed.

Section ReplaceFirst.

Variables (ml : bool) (p : pattern) (repl : jsstring).

Lemma replace_first_hit prev s rest :
  match_pattern ml p prev s = Some rest ->
  replace_first ml p repl prev s = repl ++ rest.
Proof. intros H. destruct s; simpl; by rewrite H. Qed.

(** Where the pattern matches at no position of [pre], [pre] is copied. *)
Lemma replace_first_app pre : forall prev rest,
  (forall a b, pre = a ++ b -> b <> [] ->
     match_pattern ml p (prev_after prev a) (b ++ rest) = None) ->
  replace_first ml p repl prev (pre ++ rest)
  = pre ++ replace_first ml p repl (prev_after prev pre) rest.
Proof.
  induction pre as [|c pre IH]; intros prev rest H; [done|].
  change ((c :: pre) ++ rest) with (c :: pre ++ rest).
  cbn [replace_first].
  assert (match_pattern ml p prev (c :: pre ++ rest) = None) as ->
    by (by apply (H [] (c :: pre))).
  rewrite prev_after_cons, IH; [done|].
  intros a b -> Hb. by apply (H (c :: a) b).
Qed.

Lemma test_from_false pre : forall prev,
  test_from ml p prev pre = false ->
  forall a b, pre = a ++ b -> match_pattern ml p (prev_after prev a) b = None.
Proof.
  induction pre as [|c pre IH]; intros prev H a b E.
  - destruct a; [|done]. simpl in E. subst b. simpl in H |- *.
    by destruct (match_pattern ml p prev []).
  - cbn [test_from] in H.
    destruct (match_pattern ml p prev (c :: pre)) eqn:Em; [done|].
    destruct a as [|d a]; simpl in E; [by subst b|].
    injection E as -> ->. rewrite prev_after_cons. by apply (IH _ H).
Qed.

End ReplaceFirst.

Lemma whole_lines_app_r a b : b <> [] -> whole_lines (a ++ b) = whole_lines b.
Proof.
  intros Hb. induction a as [|c a IH]; [done|].
  change ((c :: a) ++ b) with (c :: a ++ b).
  rewrite whole_lines_cons; [done|]. by destruct a, b.
Qed.

(** The first line that the pattern matches is replaced, whatever value it
    declares, and nothing else. *)
Lemma set_utf8_first_match pre v post :
  whole_lines pre = true -> test re_set pre = false ->
  forallb dot v = true -> at_eol true post = true ->
  set_utf8 (pre ++ js "SET " ++ v ++ post) = pre ++ js "SET UTF-8" ++ post.
Proof.
  intros Hl Ht Hv Hp. unfold set_utf8, replace. simpl global. cbv iota.
  change (multiline re_set) with true.
  rewrite replace_first_app.
  - f_equal. erewrite replace_first_hit.
    + reflexivity.
    + rewrite match_set_line by (by rewrite at_bol_whole_lines).
      by rewrite drop_while_dot_app.
  - intros a b -> Hb. apply match_set_app; [done| |].
    + by rewrite whole_lines_app_r in Hl.
    + by apply (test_from_false _ _ _ None Ht).
Qed.

Example set_utf8_first_match_ex :
  set_utf8 (js "# SET x" ++ [LF] ++ js "SET KOI8-R" ++ [CR; LF] ++ js "SET y")
  = js "# SET x" ++ [LF] ++ js "SET UTF-8" ++ [CR; LF] ++ js "SET y".
Proof. reflexivity. Qed.

(** ** A line behind a byte-order mark *)

Lemma dot_not_cr c : dot c = true -> (c =? CR) = false.
Proof.
  simpl. unfold is_line_terminator. destruct (c =? CR); [|done].
  by rewrite orb_true_r.
Qed.

Lemma dot_not_lf c : dot c = true -> c <> LF.
Proof. intros H ->. done. Qed.

Lemma at_bol_after_dots a : forall prev,
  forallb dot a = true -> at_bol true prev = false ->
  at_bol true (prev_after prev a) = false.
Proof.
  induction a as [|c a IH]; intros prev Ha Hp; [done|].
  simpl in Ha. apply andb_true_iff in Ha as [Hc Ha].
  rewrite prev_after_cons. apply IH; [done|].
  simpl. by apply negb_true_iff in Hc.
Qed.

Lemma forallb_dot_app_l (a b : jsstring) :
  forallb dot (a ++ b) = true -> forallb dot a = true.
Proof. rewrite forallb_app. by intros [H _]%andb_true_iff. Qed.

(** Inside a line, the pattern finds no start of a line. *)
Lemma replace_set_inside_line pre prev rest repl :
  forallb dot pre = true -> at_bol true prev = false ->
  replace_first true set_pattern repl prev (pre ++ rest)
  = pre ++ replace_first true set_pattern repl (prev_after prev pre) rest.
Proof.
  intros Ha Hp. apply replace_first_app. intros a b -> _.
  apply match_set_not_bol, at_bol_after_dots; [|done].
  by apply forallb_dot_app_l in Ha.
Qed.

Lemma at_eol_replace_set prev rest :
  at_bol true prev = false -> at_eol true rest = true ->
  at_eol true (replace_first true set_pattern SET_UTF8 prev rest) = true.
Proof.
  intros Hp Hr. destruct rest as [|l r]; cbn [replace_first];
    by rewrite match_set_not_bol.
Qed.

Lemma at_eol_head s :
  at_eol true s = true <-> forall h, head s = Some h -> is_line_terminator h = true.
Proof.
  destruct s as [|c s]; simpl; [done|]. split; [by intros H h [= <-] | eauto].
Qed.

Lemma head_kept_at_eol f s :
  head_kept f -> at_eol true s = true -> at_eol true (f s) = true.
Proof.
  rewrite !at_eol_head. intros Hf Hs h Hh.
  apply Hf in Hh as [Hh|Hh]; eauto.
Qed.

Lemma crlf_to_lf_app a b :
  forallb dot a = true -> crlf_to_lf (a ++ b) = a ++ crlf_to_lf b.
Proof.
  induction a as [|c a IH]; [done|]. simpl forallb.
  intros [Hc Ha]%andb_true_iff.
  change ((c :: a) ++ b) with (c :: a ++ b). cbn [crlf_to_lf].
  rewrite (dot_not_cr c Hc). simpl andb. rewrite (IH Ha).
  by destruct (a ++ b) eqn:E; [apply app_eq_nil in E as [-> ->]|].
Qed.

Lemma not_in_cr_dots a : forallb dot a = true -> ~ In CR a.
Proof. rewrite forallb_forall. intros H Hin. by apply H in Hin. Qed.

Lemma cr_to_lf_app a b :
  forallb dot a = true -> cr_to_lf (a ++ b) = a ++ cr_to_lf b.
Proof.
  intros Ha. unfold cr_to_lf. rewrite map_app. f_equal.
  by apply cr_to_lf_id, not_in_cr_dots.
Qed.

Lemma in_rtrim c s : In c (rtrim s) -> In c s.
Proof.
  induction s as [|d s IH]; [done|]. cbn [rtrim].
  destruct (rtrim s); [destruct (is_ws d)|]; simpl in *; tauto.
Qed.

Lemma rtrim_lines_app a b :
  forallb dot a = true -> at_eol true b = true ->
  rtrim_lines (a ++ b) = rtrim a ++ rtrim_lines b.
Proof.
  intros Ha Hb. induction a as [|c a IH]; [done|].
  simpl in Ha. apply andb_true_iff in Ha as [Hc Ha].
  change ((c :: a) ++ b) with (c :: a ++ b). cbn [rtrim_lines rtrim].
  rewrite (IH Ha). destruct (rtrim a) as [|d r] eqn:E.
  - simpl app. rewrite (head_kept_at_eol _ _ head_kept_rtrim_lines Hb).
    rewrite andb_true_r. by destruct (is_ws c).
  - assert (dot d = true) as Hd.
    { rewrite forallb_forall in Ha. apply Ha, in_rtrim. rewrite E. by left. }
    simpl in Hd. apply negb_true_iff in Hd. simpl. rewrite Hd.
    by rewrite andb_false_r.
Qed.

Lemma drop_final_newlines_app a b :
  last a <> Some LF -> drop_final_newlines (a ++ b) = a ++ drop_final_newlines b.
Proof.
  induction a as [|c a IH]; [done|]. intros H.
  change ((c :: a) ++ b) with (c :: a ++ b). cbn [drop_final_newlines].
  destruct a as [|d a].
  - simpl. destruct (drop_final_newlines b); [|done].
    destruct (c =? LF) eqn:E; [|done]. apply N.eqb_eq in E. subst. by destruct H.
  - rewrite IH by exact H. done.
Qed.

Lemma last_in (c : char) s : last s = Some c -> In c s.
Proof. intros H. apply list_elem_of_In. by apply last_Some_elem_of. Qed.

(** A first line without its line terminator goes through the four steps
    after the byte-order mark unchanged, but for the spaces and tabs at its
    end. *)
Lemma normalizeContent_first_line a b :
  forallb dot a = true -> at_eol true b = true ->
  exists tail, tail <> [] /\ at_eol true tail = true
    /\ ensure_final_newline (rtrim_lines (cr_to_lf (crlf_to_lf (a ++ b))))
       = rtrim a ++ tail.
Proof.
  intros Ha Hb.
  exists (ensure_final_newline (rtrim_lines (cr_to_lf (crlf_to_lf b)))).
  split; [unfold ensure_final_newline; by destruct (drop_final_newlines _)|].
  split.
  - by apply head_kept_at_eol, head_kept_at_eol, head_kept_at_eol,
      head_kept_at_eol;
      auto using head_kept_ensure_final_newline, head_kept_rtrim_lines,
        head_kept_cr_to_lf, head_kept_crlf_to_lf.
  - rewrite crlf_to_lf_app, cr_to_lf_app, rtrim_lines_app; try done.
    + unfold ensure_final_newline. rewrite drop_final_newlines_app, app_assoc; [done|].
      intros Hl. apply last_in, in_rtrim in Hl.
      rewrite forallb_forall in Ha. by apply Ha in Hl.
    + by apply head_kept_at_eol, head_kept_at_eol;
        auto using head_kept_cr_to_lf, head_kept_crlf_to_lf.
Qed.

Lemma rtrim_id a c : last a = Some c -> is_ws c = false -> rtrim a = a.
Proof.
  induction a as [|d a IH]; [done|]. intros Hl Hc. cbn [rtrim].
  destruct a as [|e a].
  - simpl in *. injection Hl as ->. by rewrite Hc.
  - rewrite IH; [done | exact Hl | done].
Qed.

(** C10: the affix content starts with a byte-order mark and a line
    [SET <value>] (the value holds no line terminator, the line ends where
    the text ends or a line terminator stands). The pragma rewrite leaves
    the mark and this line as they are (whatever it rewrites comes after
    the line), and the content written to index.aff starts with this line,
    with only the spaces and tabs at its end removed, so with the encoding
    it declared when the value does not end in a space or tab. *)
Theorem bom_hides_set_line (v rest : jsstring) :
  forallb dot v = true -> at_eol true rest = true ->
  (exists rest', at_eol true rest' = true
     /\ set_utf8 (BOM :: js "SET " ++ v ++ rest) = BOM :: js "SET " ++ v ++ rest')
  /\ (exists tail, tail <> [] /\ at_eol true tail = true
        /\ affContent (BOM :: js "SET " ++ v ++ rest) = rtrim (js "SET " ++ v) ++ tail)
  /\ (forall c, last v = Some c -> is_ws c = false ->
        rtrim (js "SET " ++ v) = js "SET " ++ v).
Proof.
  intros Hv Hr.
  assert (forallb dot (js "SET " ++ v) = true) as Hline
    by (rewrite forallb_app, Hv; reflexivity).
  assert (set_utf8 (BOM :: js "SET " ++ v ++ rest)
          = BOM :: js "SET " ++ v
              ++ replace_first true set_pattern SET_UTF8
                   (prev_after (Some BOM) (js "SET " ++ v)) rest) as Hset.
  { unfold set_utf8, replace. simpl global. cbv iota.
    change (multiline re_set) with true.
    cbn [replace_first]. change (js "SET " ++ v ++ rest) with (83 :: (69 :: 84 :: SP :: v) ++ rest).
    set (tl := (69 :: 84 :: SP :: v) ++ rest).
    assert (match_pattern true set_pattern None (BOM :: 83 :: tl) = None) as -> by done.
    f_equal. subst tl.
    change (83 :: (69 :: 84 :: SP :: v) ++ rest) with ((js "SET " ++ v) ++ rest).
    rewrite replace_set_inside_line by done. by rewrite <- app_assoc. }
  assert (at_eol true (replace_first true set_pattern SET_UTF8
                         (prev_after (Some BOM) (js "SET " ++ v)) rest) = true) as Hrest.
  { apply at_eol_replace_set; [|done]. by apply at_bol_after_dots. }
  split; [eauto|]. split.
  - unfold affContent. rewrite Hset, normalizeContent_closed.
    change (strip_bom (BOM :: ?s)) with s.
    rewrite (app_assoc (js "SET ")).
    by apply normalizeContent_first_line.
  - intros c Hl Hc. apply (rtrim_id _ c); [|done].
    rewrite last_app, Hl. done.
Qed.

Lemma bom_hides_set_line_witness :
  let v := js "ISO8859-1" in
  let rest := [CR; LF] ++ js "SET x" in
  (exists rest', at_eol true rest' = true
     /\ set_utf8 (BOM :: js "SET " ++ v ++ rest) = BOM :: js "SET " ++ v ++ rest')
  /\ (exists tail, tail <> [] /\ at_eol true tail = true
        /\ affContent (BOM :: js "SET " ++ v ++ rest) = rtrim (js "SET " ++ v) ++ tail)
  /\ (forall c, last v = Some c -> is_ws c = false ->
        rtrim (js "SET " ++ v) = js "SET " ++ v).
Proof.
  intros v rest. apply (bom_hides_set_line v rest); reflexivity.
Defined.

Example bom_hides_set_line_ex :
  affContent (BOM :: js "SET ISO8859-1" ++ [CR; LF] ++ js "SET x")
  = js "SET ISO8859-1" ++ [LF] ++ js "SET UTF-8" ++ [LF].
Proof. reflexivity. Qed.

(** ** File names *)

Lemma append_inj_r (a b c : string) : a +:+ b = a +:+ c -> b = c.
Proof. induction a as [|x a IH]; simpl; [done|]. intros [= H]. by apply IH. Qed.

Lemma path_join_inj dir a b : path_join dir a = path_join dir b -> a = b.
Proof. unfold path_join. intros H. apply append_inj_r in H. by injection H. Qed.

(** C7: without filename overrides, the remote file names are the folder
    value with [.dic] and [.aff] appended, as the derivation rule of the
    specification has it, whether or not the folder holds an underscore, and
    the remote locations are base/folder/folder.dic and base/folder/folder.aff. *)
Theorem default_file_names (dict : Dictionary) :
  dicPath dict = None -> affPath dict = None ->
  dicFile dict = spec_default_file (folder dict) ".dic"
  /\ affFile dict = spec_default_file (folder dict) ".aff"
  /\ dicFile dict = folder dict +:+ ".dic"
  /\ affFile dict = folder dict +:+ ".aff"
  /\ dicUrl dict
     = LIBREOFFICE_BASE_URL +:+ "/" +:+ folder dict +:+ "/" +:+ folder dict +:+ ".dic"
  /\ affUrl dict
     = LIBREOFFICE_BASE_URL +:+ "/" +:+ folder dict +:+ "/" +:+ folder dict +:+ ".aff".
Proof.
  intros Hd Ha. unfold dicUrl, affUrl, dicFile, affFile, spec_default_file.
  rewrite Hd, Ha. cbn [or_else].
  by destruct (includes (folder dict) "_").
Qed.

Lemma default_file_names_witness :
  let dict := entry "xx" "xx_YY" "Example" "GPL-3.0" "COPYING" in
  dicFile dict = spec_default_file (folder dict) ".dic"
  /\ affFile dict = spec_default_file (folder dict) ".aff"
  /\ dicFile dict = folder dict +:+ ".dic"
  /\ affFile dict = folder dict +:+ ".aff"
  /\ dicUrl dict
     = LIBREOFFICE_BASE_URL +:+ "/" +:+ folder dict +:+ "/" +:+ folder dict +:+ ".dic"
  /\ affUrl dict
     = LIBREOFFICE_BASE_URL +:+ "/" +:+ folder dict +:+ "/" +:+ folder dict +:+ ".aff".
Proof. intros dict. apply (default_file_names dict); reflexivity. Defined.

Example default_file_names_ex :
  let dict := entry "xx" "xx_YY" "Example" "GPL-3.0" "COPYING" in
  dicUrl dict
  = "https://raw.githubusercontent.com/LibreOffice/dictionaries/master/xx_YY/xx_YY.dic"
  /\ affUrl dict
     = "https://raw.githubusercontent.com/LibreOffice/dictionaries/master/xx_YY/xx_YY.aff".
Proof. by split. Qed.

(** With an override, the override is the file name. *)
Example override_file_names_ex :
  map dicFile (filter (fun d => bool_decide (is_Some (dicPath d))) LIBREOFFICE_DICTIONARIES)
  = ["be-official.dic"; "dictionaries/ckb.dic"; "id_ID.dic"].
Proof. reflexivity. Qed.

(** ** The catalog *)

(** C9: the codes of the catalog are pairwise distinct, and so are the
    directories that the descriptors write to, under any root. *)
Theorem catalog_codes_distinct :
  NoDup (map code LIBREOFFICE_DICTIONARIES)
  /\ forall dir, NoDup (map (fun d => path_join dir (code d)) LIBREOFFICE_DICTIONARIES).
Proof.
  assert (NoDup (map code LIBREOFFICE_DICTIONARIES)) as H.
  { apply (bool_decide_unpack _). by vm_compute. }
  split; [done|]. intros dir.
  rewrite <- (map_map code (path_join dir)).
  assert (Inj (=) (=) (path_join dir)) by (intros a b; apply path_join_inj).
  by apply (NoDup_fmap_2 (path_join dir)).
Qed.

Example catalog_size : length LIBREOFFICE_DICTIONARIES = 27%nat.
Proof. reflexivity. Qed.

(** ** processDictionary *)

Section Acquire.

Variable dir : string.
Variable env : Env.

(** C5: when index.dic is already in the destination directory,
    processDictionary returns after the one existence check of index.dic and
    one console line: no fetch, no write, no other existence check, and the
    files and directories are as they were. *)
Theorem skip_when_present (dict : Dictionary) (w : World) :
  is_Some (files w !! artifact dir dict "index.dic") ->
  processDictionary dir env dict w
  = (Returned tt,
     {| files := files w; dirs := dirs w;
        trace := trace w ++
          [ExistsSync (artifact dir dict "index.dic");
           ConsoleLog ("  ✓ " +:+ code dict +:+ " (" +:+ name dict
                       +:+ ") - already exists")] |})
  /\ fetched (trace (snd (processDictionary dir env dict w))) = fetched (trace w)
  /\ written (trace (snd (processDictionary dir env dict w))) = written (trace w).
Proof.
  intros H.
  assert (processDictionary dir env dict w
  = (Returned tt,
     {| files := files w; dirs := dirs w;
        trace := trace w ++
          [ExistsSync (artifact dir dict "index.dic");
           ConsoleLog ("  ✓ " +:+ code dict +:+ " (" +:+ name dict
                       +:+ ") - already exists")] |})) as E.
  { unfold processDictionary, bind, existsSync.
    fold (destDir dir dict). fold (artifact dir dict "index.dic").
    rewrite (bool_decide_eq_true_2 _ H). simpl orb. cbv iota.
    unfold console_log, record. simpl. by rewrite <- app_assoc. }
  rewrite E. split; [done|]. simpl. unfold fetched, written.
  rewrite !omap_app. simpl. by rewrite !app_nil_r.
Qed.

Lemma written_app a b : written (a ++ b) = written a ++ written b.
Proof. apply omap_app. Qed.

Lemma written_cons e t :
  written (e :: t) = match e with WriteFile p _ => [p] | _ => [] end ++ written t.
Proof. by destruct e. Qed.

Lemma written_license_report dict : written (license_report env dict) = [].
Proof. unfold license_report. by destruct (net env (licenseUrl dict)). Qed.

Lemma written_record e w :
  written (trace (record e w))
  = written (trace w) ++ match e with WriteFile p _ => [p] | _ => [] end.
Proof. unfold written, record. simpl. rewrite omap_app. by destruct e. Qed.

Lemma written_log line w : written (trace (record (ConsoleLog line) w)) = written (trace w).
Proof. by rewrite written_record, app_nil_r. Qed.

(** A failed fetch of the word list: [download_dic] writes nothing, reports
    the failure and returns [false]. *)
Lemma download_dic_fails dict p w :
  fetch_fails env (dicUrl dict) ->
  exists message,
    download_dic env dict p w
    = (Returned false,
       record (ConsoleLog ("    ✗ Failed to download .dic: " +:+ message))
         (record (Fetch (dicUrl dict)) w)).
Proof.
  unfold fetch_fails, download_dic, try_catch, bind, fetch.
  destruct (net env (dicUrl dict)) as [e|r]; intros H.
  - by exists e.
  - rewrite H. by eexists.
Qed.

Lemma process_all_cons dict rest w :
  process_all dir env (dict :: rest) w
  = process_all dir env rest (after_descriptor dir env dict w).
Proof.
  unfold after_descriptor. cbn [process_all]. unfold bind, try_catch.
  by destruct (processDictionary dir env dict w) as [[[]|e] w'].
Qed.

Lemma after_descriptor_returned dict w a w' :
  processDictionary dir env dict w = (Returned a, w') ->
  after_descriptor dir env dict w = w'.
Proof. unfold after_descriptor, try_catch. by intros ->. Qed.

Lemma after_descriptor_thrown dict w e w' :
  processDictionary dir env dict w = (Thrown e, w') ->
  after_descriptor dir env dict w
  = record (ConsoleLog ("  ✗ " +:+ code dict +:+ " failed: " +:+ e)) w'.
Proof. unfold after_descriptor, try_catch. by intros ->. Qed.

Lemma files_after_descriptor dict w :
  files (after_descriptor dir env dict w) = files (snd (processDictionary dir env dict w)).
Proof.
  unfold after_descriptor, try_catch.
  by destruct (processDictionary dir env dict w) as [[[]|e] w'].
Qed.

(** C4: when the fetch of the word list rejects or answers with a
    non-success status, processDictionary makes no writeFile call at all, so
    the files are as they were (no index.aff, .spdx, .source or license is
    written); it returns normally unless mkdir threw; and the loop of main
    goes on with the descriptors that follow, from unchanged files. *)
Theorem dic_failure_writes_nothing (dict : Dictionary) (w : World)
    (rest : list Dictionary) :
  fetch_fails env (dicUrl dict) ->
  files (snd (processDictionary dir env dict w)) = files w
  /\ written (trace (snd (processDictionary dir env dict w))) = written (trace w)
  /\ (mkdir_error env (destDir dir dict) = None ->
      fst (processDictionary dir env dict w) = Returned tt)
  /\ process_all dir env (dict :: rest) w
     = process_all dir env rest (after_descriptor dir env dict w)
  /\ files (after_descriptor dir env dict w) = files w.
Proof.
  intros H.
  assert (files (snd (processDictionary dir env dict w)) = files w
          /\ written (trace (snd (processDictionary dir env dict w))) = written (trace w)
          /\ (mkdir_error env (destDir dir dict) = None ->
              fst (processDictionary dir env dict w) = Returned tt)) as (Hf & Hw & Hr).
  { unfold processDictionary, bind, existsSync.
    fold (destDir dir dict). fold (artifact dir dict "index.dic").
    destruct (_ || _); [by trace_simpl|].
    cbn [console_log]. unfold mkdir.
    destruct (mkdir_error env (destDir dir dict)) as [e|]; [by trace_simpl|].
    match goal with
    | |- context [download_dic env dict ?p ?w'] =>
        destruct (download_dic_fails dict p w' H) as [message ->]
    end.
    by trace_simpl. }
  split; [done|]. split; [done|]. split; [done|].
  split; [apply process_all_cons|]. by rewrite files_after_descriptor.
Qed.

Lemma fetch_text_Some url t :
  fetch_text env url = Some t ->
  exists r, net env url = inr r /\ ok r = true /\ body r = inr t.
Proof.
  unfold fetch_text. destruct (net env url) as [e|r]; [done|].
  destruct (ok r) eqn:Hok; [|done]. destruct (body r) as [e|t'] eqn:E; [done|].
  intros [= ->]. eauto.
Qed.

Lemma download_dic_ok dict p w t :
  fetch_text env (dicUrl dict) = Some t -> write_error env p = None ->
  download_dic env dict p w
  = (Returned true,
     {| files := <[p := normalizeContent t]> (files w); dirs := dirs w;
        trace := trace w ++ [Fetch (dicUrl dict); WriteFile p (normalizeContent t);
                             ConsoleLog "    ✓ index.dic"] |}).
Proof.
  intros Ht Hw. destruct (fetch_text_Some _ _ Ht) as (r & Hn & Hok & Hb).
  unfold download_dic, try_catch, bind, fetch, text, writeFile.
  rewrite Hn, Hok, Hb. simpl. rewrite Hw. world_eq.
Qed.

Lemma download_aff_ok dict p w t :
  fetch_text env (affUrl dict) = Some t -> write_error env p = None ->
  download_aff env dict p w
  = (Returned true,
     {| files := <[p := affContent t]> (files w); dirs := dirs w;
        trace := trace w ++ [Fetch (affUrl dict); WriteFile p (affContent t);
                             ConsoleLog "    ✓ index.aff"] |}).
Proof.
  intros Ht Hw. destruct (fetch_text_Some _ _ Ht) as (r & Hn & Hok & Hb).
  unfold download_aff, try_catch, bind, fetch, text, writeFile.
  rewrite Hn, Hok, Hb. simpl. rewrite Hw. world_eq.
Qed.

Lemma download_license_fails dict d w :
  fetch_fails env (licenseUrl dict) ->
  download_license env dict d w
  = (Returned tt,
     {| files := files w; dirs := dirs w;
        trace := trace w ++ Fetch (licenseUrl dict) :: license_report env dict |}).
Proof.
  unfold fetch_fails, license_report, download_license, try_catch, bind, fetch.
  destruct (net env (licenseUrl dict)) as [e|r]; intros H; simpl.
  - world_eq.
  - rewrite H. world_eq.
Qed.

Lemma artifact_ne dict f g : f <> g -> artifact dir dict f <> artifact dir dict g.
Proof. intros H E. by apply path_join_inj in E. Qed.

(** C6: index.dic is not there yet, the file system works, the fetches of
    the word list and of the affix rules succeed, and the fetch of the
    license file rejects or answers with a non-success status. Then
    processDictionary returns normally, having written index.dic, index.aff,
    .spdx (the license identifier and one linefeed) and .source, in this
    order, and no license file; after the failed fetch it reports at most
    that no license file was found, and then that the descriptor is done. *)
Theorem license_failure_swallowed (dict : Dictionary) (w : World)
    (td ta : jsstring) :
  absent w (artifact dir dict "index.dic") ->
  fs_works env dir dict ->
  fetch_text env (dicUrl dict) = Some td ->
  fetch_text env (affUrl dict) = Some ta ->
  fetch_fails env (licenseUrl dict) ->
  exists w',
    processDictionary dir env dict w = (Returned tt, w')
    /\ files w' !! artifact dir dict "index.dic" = Some (normalizeContent td)
    /\ files w' !! artifact dir dict "index.aff" = Some (affContent ta)
    /\ files w' !! artifact dir dict ".spdx" = Some (js (license dict) ++ [LF])
    /\ files w' !! artifact dir dict ".source" = Some (js SOURCE_URL ++ [LF])
    /\ files w' !! artifact dir dict "license" = files w !! artifact dir dict "license"
    /\ written (trace w')
       = written (trace w)
         ++ [artifact dir dict "index.dic"; artifact dir dict "index.aff";
             artifact dir dict ".spdx"; artifact dir dict ".source"]
    /\ trace w'
       = trace w
         ++ [ExistsSync (artifact dir dict "index.dic");
             ConsoleLog ("  Processing " +:+ code dict +:+ " (" +:+ name dict +:+ ")...");
             Mkdir (destDir dir dict);
             Fetch (dicUrl dict);
             WriteFile (artifact dir dict "index.dic") (normalizeContent td);
             ConsoleLog "    ✓ index.dic";
             Fetch (affUrl dict);
             WriteFile (artifact dir dict "index.aff") (affContent ta);
             ConsoleLog "    ✓ index.aff";
             WriteFile (artifact dir dict ".spdx") (js (license dict) ++ [LF]);
             ConsoleLog "    ✓ .spdx";
             WriteFile (artifact dir dict ".source") (js SOURCE_URL ++ [LF]);
             ConsoleLog "    ✓ .source";
             Fetch (licenseUrl dict)]
         ++ license_report env dict
         ++ [ConsoleLog ("  ✓ " +:+ code dict +:+ " (" +:+ name dict +:+ ") - done")].
Proof.
  intros [Hf Hd] [Hmk Hwr] Hdic Haff Hlic.
  eexists. split.
  - unfold processDictionary, bind, existsSync.
    fold (destDir dir dict).
    repeat match goal with
    | |- context [path_join (destDir dir dict) ?f] => fold (artifact dir dict f)
    end.
    rewrite (bool_decide_eq_false_2 _ Hd).
    rewrite bool_decide_eq_false_2 by (rewrite Hf; by intros [? ?]).
    cbn [orb console_log]. unfold mkdir. rewrite Hmk.
    rewrite (download_dic_ok _ _ _ td Hdic (Hwr _)). cbn [negb].
    rewrite (download_aff_ok _ _ _ ta Haff (Hwr _)). cbn [negb].
    unfold writeFile. rewrite !Hwr. cbn [console_log].
    rewrite (download_license_fails _ _ _ Hlic). cbn [console_log].
    reflexivity.
  - unfold line. cbn [files trace record].
    repeat split.
    + rewrite !lookup_insert_ne by (by apply artifact_ne).
      apply lookup_insert_eq.
    + rewrite !lookup_insert_ne by (by apply artifact_ne).
      apply lookup_insert_eq.
    + rewrite !lookup_insert_ne by (by apply artifact_ne).
      apply lookup_insert_eq.
    + apply lookup_insert_eq.
    + by rewrite !lookup_insert_ne by (by apply artifact_ne).
    + rewrite !written_app, !written_cons, written_license_report.
      cbn [app]. change (written []) with (@nil string).
      by rewrite ?app_nil_r, <- ?app_assoc.
    + by rewrite <- !app_assoc.
Qed.

(** C3: the fetched affix content is whole lines that the pattern
    [/^SET .*/m] does not match, then the line [SET ISO8859-1], then the end
    of the text or a line terminator and what follows it. The rewrite
    replaces exactly this line by [SET UTF-8]; the content of index.aff is
    the normalisation of the text with this one line replaced, and it is
    what download_aff leaves in the file when the write does not fail. *)
Theorem aff_set_line_rewritten (pre post : jsstring) :
  whole_lines pre = true -> test re_set pre = false ->
  at_eol true post = true ->
  set_utf8 (pre ++ js "SET ISO8859-1" ++ post) = pre ++ js "SET UTF-8" ++ post
  /\ affContent (pre ++ js "SET ISO8859-1" ++ post)
     = normalizeContent (pre ++ js "SET UTF-8" ++ post)
  /\ forall dict p w,
       fetch_text env (affUrl dict) = Some (pre ++ js "SET ISO8859-1" ++ post) ->
       write_error env p = None ->
       files (snd (download_aff env dict p w)) !! p
       = Some (normalizeContent (pre ++ js "SET UTF-8" ++ post)).
Proof.
  intros Hl Ht Hp.
  assert (set_utf8 (pre ++ js "SET ISO8859-1" ++ post)
          = pre ++ js "SET UTF-8" ++ post) as E
    by (by apply (set_utf8_first_match pre (js "ISO8859-1") post)).
  split; [done|].
  assert (affContent (pre ++ js "SET ISO8859-1" ++ post)
          = normalizeContent (pre ++ js "SET UTF-8" ++ post)) as E'
    by (unfold affContent; by rewrite E).
  split; [done|]. intros dict p w Hfetch Hw.
  rewrite (download_aff_ok _ _ _ _ Hfetch Hw). cbn [snd files].
  rewrite E'. apply lookup_insert_eq.
Qed.

(** ** The loop of main *)

Lemma process_all_returns ds : forall w, fst (process_all dir env ds w) = Returned tt.
Proof.
  induction ds as [|d ds IH]; intros w; [done|].
  by rewrite process_all_cons.
Qed.

Lemma process_all_world ds : forall w,
  snd (process_all dir env ds w)
  = fold_left (fun w d => after_descriptor dir env d w) ds w.
Proof.
  induction ds as [|d ds IH]; intros w; [done|].
  by rewrite process_all_cons, IH.
Qed.

Lemma process_all_app before rest w :
  process_all dir env (before ++ rest) w
  = process_all dir env rest (snd (process_all dir env before w)).
Proof.
  revert w. induction before as [|d ds IH]; intros w; [done|].
  change ((d :: ds) ++ rest) with (d :: ds ++ rest).
  by rewrite !process_all_cons, IH.
Qed.

(** main returns normally when the root directory can be created, whatever
    happens to the descriptors. *)
Lemma main_returns w :
  mkdir_error env dir = None -> fst (main dir env w) = Returned tt.
Proof.
  intros H. unfold main, bind. cbn [console_log]. unfold mkdir. rewrite H.
  match goal with
  | |- context [process_all dir env ?ds ?w'] =>
      pose proof (process_all_returns ds w') as Hr;
      destruct (process_all dir env ds w') as [o w'']
  end.
  simpl in Hr. by subst o.
Qed.

(** C8: when processDictionary throws for the descriptor at some position
    of a catalog, the loop reports the failure on the console and runs on:
    its result is that of the loop over the descriptors that follow, each
    processed in turn from the world that the failure left, and the loop
    itself returns normally. *)
Theorem exception_isolated (before : list Dictionary) (dict : Dictionary)
    (rest : list Dictionary) (w : World) (e : string) :
  fst (processDictionary dir env dict (snd (process_all dir env before w)))
  = Thrown e ->
  let w1 := snd (processDictionary dir env dict (snd (process_all dir env before w))) in
  let reported :=
    record (ConsoleLog ("  ✗ " +:+ code dict +:+ " failed: " +:+ e)) w1 in
  process_all dir env (before ++ dict :: rest) w = process_all dir env rest reported
  /\ fst (process_all dir env (before ++ dict :: rest) w) = Returned tt
  /\ snd (process_all dir env (before ++ dict :: rest) w)
     = fold_left (fun w d => after_descriptor dir env d w) rest reported.
Proof.
  intros H w1 reported.
  assert (process_all dir env (before ++ dict :: rest) w
          = process_all dir env rest reported) as E.
  { rewrite process_all_app, process_all_cons. f_equal.
    apply after_descriptor_thrown. subst w1. rewrite <- H.
    apply surjective_pairing. }
  split; [done|]. split; [apply process_all_returns|].
  by rewrite E, process_all_world.
Qed.

(** With three descriptors of which the second throws, the first and the
    third are processed as they would be alone. *)
Corollary second_of_three_throws (d1 d2 d3 : Dictionary) (w : World) (e : string) :
  fst (processDictionary dir env d2 (after_descriptor dir env d1 w)) = Thrown e ->
  process_all dir env [d1; d2; d3] w
  = (Returned tt,
     after_descriptor dir env d3
       (record (ConsoleLog ("  ✗ " +:+ code d2 +:+ " failed: " +:+ e))
          (snd (processDictionary dir env d2 (after_descriptor dir env d1 w))))).
Proof.
  intros H. rewrite !process_all_cons.
  rewrite (after_descriptor_thrown d2 _ e
             (snd (processDictionary dir env d2 (after_descriptor dir env d1 w)))).
  - reflexivity.
  - rewrite <- H. apply surjective_pairing.
Qed.

End Acquire.

(** ** The theorems at sample inputs *)

Lemma skip_when_present_witness :
  let w := Sample.world_with_aa in
  let r := processDictionary Sample.root Sample.env_no_license Sample.aa w in
  r = (Returned tt,
       {| files := files w; dirs := dirs w;
          trace := trace w ++
            [ExistsSync (artifact Sample.root Sample.aa "index.dic");
             ConsoleLog ("  ✓ " +:+ code Sample.aa +:+ " (" +:+ name Sample.aa
                         +:+ ") - already exists")] |})
  /\ fetched (trace (snd r)) = fetched (trace w)
  /\ written (trace (snd r)) = written (trace w).
Proof.
  intros w r.
  apply (skip_when_present Sample.root Sample.env_no_license Sample.aa w).
  vm_compute. by eexists.
Defined.

Lemma dic_failure_writes_nothing_witness :
  let w := Sample.empty_world in
  let r := processDictionary Sample.root Sample.env_nothing_found Sample.aa w in
  files (snd r) = files w
  /\ written (trace (snd r)) = written (trace w)
  /\ (mkdir_error Sample.env_nothing_found (destDir Sample.root Sample.aa) = None ->
      fst r = Returned tt)
  /\ process_all Sample.root Sample.env_nothing_found [Sample.aa; Sample.bb] w
     = process_all Sample.root Sample.env_nothing_found [Sample.bb]
         (after_descriptor Sample.root Sample.env_nothing_found Sample.aa w)
  /\ files (after_descriptor Sample.root Sample.env_nothing_found Sample.aa w) = files w.
Proof.
  intros w r.
  apply (dic_failure_writes_nothing Sample.root Sample.env_nothing_found
           Sample.aa w [Sample.bb]).
  vm_compute. reflexivity.
Defined.

Lemma license_failure_swallowed_witness :
  exists w',
    processDictionary Sample.root Sample.env_license_rejects Sample.aa Sample.empty_world
    = (Returned tt, w')
    /\ files w' !! artifact Sample.root Sample.aa ".spdx" = Some (js "GPL-3.0" ++ [LF])
    /\ files w' !! artifact Sample.root Sample.aa "license" = None
    /\ written (trace w')
       = ["dictionaries/aa/index.dic"; "dictionaries/aa/index.aff";
          "dictionaries/aa/.spdx"; "dictionaries/aa/.source"].
Proof.
  destruct (license_failure_swallowed Sample.root Sample.env_license_rejects
              Sample.aa Sample.empty_world
              (js "2" ++ [CR; LF] ++ js "ab " ++ [CR; LF] ++ js "cd")
              (js "# affix rules" ++ [LF] ++ js "SET ISO8859-1" ++ [CR; LF]
                 ++ js "TRY abcd" ++ [LF]))
    as (w' & Hrun & _ & _ & Hspdx & _ & Hlic & Hwritten & _).
  - split; [reflexivity | apply not_elem_of_empty].
  - split; [reflexivity | intros file; reflexivity].
  - vm_compute. reflexivity.
  - vm_compute. reflexivity.
  - vm_compute. exact I.
  - exists w'. split; [exact Hrun|]. split; [exact Hspdx|].
    split; [rewrite Hlic; reflexivity | exact Hwritten].
Defined.

Lemma exception_isolated_witness :
  let loop := process_all Sample.root Sample.env_bb_denied in
  let w1 := snd (processDictionary Sample.root Sample.env_bb_denied Sample.bb
                   (snd (loop [Sample.aa] Sample.empty_world))) in
  let reported :=
    record (ConsoleLog "  ✗ bb failed: EACCES: permission denied") w1 in
  loop ([Sample.aa] ++ Sample.bb :: [Sample.cc]) Sample.empty_world
  = loop [Sample.cc] reported
  /\ fst (loop ([Sample.aa] ++ Sample.bb :: [Sample.cc]) Sample.empty_world) = Returned tt
  /\ snd (loop ([Sample.aa] ++ Sample.bb :: [Sample.cc]) Sample.empty_world)
     = fold_left (fun w d => after_descriptor Sample.root Sample.env_bb_denied d w)
         [Sample.cc] reported.
Proof.
  intros loop w1 reported.
  apply (exception_isolated Sample.root Sample.env_bb_denied [Sample.aa] Sample.bb
           [Sample.cc] Sample.empty_world "EACCES: permission denied").
  vm_compute. reflexivity.
Defined.

(** The files after the loop over three descriptors of which the second
    throws: those of the first and of the third, none of the second. *)
Example second_of_three_throws_ex :
  let w := snd (process_all Sample.root Sample.env_bb_denied
                  [Sample.aa; Sample.bb; Sample.cc] Sample.empty_world) in
  map fst (map_to_list (files w))
  ≡ₚ ["dictionaries/aa/index.dic"; "dictionaries/aa/index.aff";
      "dictionaries/aa/.spdx"; "dictionaries/aa/.source";
      "dictionaries/cc/index.dic"; "dictionaries/cc/index.aff";
      "dictionaries/cc/.spdx"; "dictionaries/cc/.source"].
Proof. apply (bool_decide_unpack _). by vm_compute. Qed.

Lemma aff_set_line_rewritten_witness :
  let pre := js "# affix rules" ++ [LF] in
  let post := [CR; LF] ++ js "TRY abcd" ++ [LF] ++ js "SET x" ++ [LF] in
  set_utf8 (pre ++ js "SET ISO8859-1" ++ post) = pre ++ js "SET UTF-8" ++ post
  /\ affContent (pre ++ js "SET ISO8859-1" ++ post)
     = normalizeContent (pre ++ js "SET UTF-8" ++ post)
  /\ forall dict p w,
       fetch_text Sample.env_no_license (affUrl dict)
       = Some (pre ++ js "SET ISO8859-1" ++ post) ->
       write_error Sample.env_no_license p = None ->
       files (snd (download_aff Sample.env_no_license dict p w)) !! p
       = Some (normalizeContent (pre ++ js "SET UTF-8" ++ post)).
Proof.
  intros pre post.
  apply (aff_set_line_rewritten Sample.env_no_license pre post); reflexivity.
Defined.

(** * Further properties *)

(** ** normalizeContent: what it keeps and what it costs *)

(** Induction along the cases of [crlf_to_lf]. *)
Lemma crlf_ind (P : jsstring -> Prop) :
  P [] -> (forall c, P [c]) ->
  (forall t, P t -> P (CR :: LF :: t)) ->
  (forall c d t, (c =? CR) && (d =? LF) = false -> P (d :: t) -> P (c :: d :: t)) ->
  forall s, P s.
Proof.
  intros Hnil Hone Hpair Hstep.
  enough (forall s, P s /\ forall c, P (c :: s)) as H by apply H.
  induction s as [|d t [IH1 IH2]]; [by split|].
  split; [apply IH2|]. intros c.
  destruct ((c =? CR) && (d =? LF)) eqn:E.
  - apply andb_true_iff in E as [Ec Ed]. apply N.eqb_eq in Ec, Ed. subst.
    by apply Hpair.
  - by apply Hstep.
Qed.

Lemma crlf_to_lf_pair t : crlf_to_lf (CR :: LF :: t) = LF :: crlf_to_lf t.
Proof. reflexivity. Qed.

Lemma crlf_to_lf_step c d t :
  (c =? CR) && (d =? LF) = false ->
  crlf_to_lf (c :: d :: t) = c :: crlf_to_lf (d :: t).
Proof. intros H. cbn [crlf_to_lf]. by rewrite H. Qed.

Section Kept.

(** A class of characters that holds none of CR, LF, space and tab. *)
Variable keep : char -> bool.
Hypothesis keep_cr : keep CR = false.
Hypothesis keep_lf : keep LF = false.
Hypothesis keep_ws : forall c, is_ws c = true -> keep c = false.

Lemma filter_crlf_to_lf s : List.filter keep (crlf_to_lf s) = List.filter keep s.
Proof.
  induction s as [|c|t IH|c d t E IH] using crlf_ind; [done..| |].
  - rewrite crlf_to_lf_pair. cbn [List.filter]. by rewrite keep_cr, keep_lf, IH.
  - rewrite crlf_to_lf_step by done. cbn [List.filter] in *. by rewrite IH.
Qed.

Lemma filter_cr_to_lf s : List.filter keep (cr_to_lf s) = List.filter keep s.
Proof.
  induction s as [|c s IH]; [done|]. simpl.
  destruct (c =? CR) eqn:E.
  - apply N.eqb_eq in E. subst. by rewrite keep_cr, keep_lf.
  - by rewrite IH.
Qed.

Lemma filter_rtrim_lines s : List.filter keep (rtrim_lines s) = List.filter keep s.
Proof.
  induction s as [|c s IH]; [done|]. cbn [rtrim_lines].
  destruct (is_ws c && at_eol true (rtrim_lines s)) eqn:E; simpl.
  - apply andb_true_iff in E as [Ec _]. by rewrite (keep_ws c Ec).
  - by rewrite IH.
Qed.

Lemma filter_drop_final_newlines s :
  List.filter keep (drop_final_newlines s) = List.filter keep s.
Proof.
  induction s as [|c s IH]; [done|]. cbn [drop_final_newlines].
  destruct (drop_final_newlines s) as [|d r] eqn:E.
  - destruct (c =? LF) eqn:Ec.
    + apply N.eqb_eq in Ec. subst. simpl. by rewrite keep_lf, <- IH.
    + simpl. by rewrite <- IH.
  - cbn [List.filter] in *. by rewrite <- IH.
Qed.

Lemma filter_after_bom s :
  List.filter keep
    (ensure_final_newline (rtrim_lines (cr_to_lf (crlf_to_lf s))))
  = List.filter keep s.
Proof.
  unfold ensure_final_newline. rewrite List.filter_app. simpl.
  rewrite keep_lf, app_nil_r.
  by rewrite filter_drop_final_newlines, filter_rtrim_lines, filter_cr_to_lf,
    filter_crlf_to_lf.
Qed.

End Kept.

Lemma visible_ws c : is_ws c = true -> visible c = false.
Proof. unfold visible. intros ->. by rewrite andb_false_r. Qed.

Lemma filter_visible_strip_bom s :
  List.filter visible (strip_bom s) = List.filter visible s.
Proof.
  destruct s as [|c s]; [done|]. simpl.
  destruct (c =? BOM) eqn:E; [|done].
  apply N.eqb_eq in E. by subst.
Qed.

Lemma in_strip_bom c s : In c (strip_bom s) -> In c s.
Proof.
  destruct s as [|d s]; [done|]. simpl. destruct (d =? BOM); simpl; tauto.
Qed.

Lemma in_crlf_to_lf c s : In c (crlf_to_lf s) -> In c s.
Proof.
  induction s as [|d|t IH|d e t E IH] using crlf_ind; [done..| |].
  - rewrite crlf_to_lf_pair. simpl. tauto.
  - rewrite crlf_to_lf_step by done. simpl in *. tauto.
Qed.

Lemma in_cr_to_lf c s : In c (cr_to_lf s) -> In c s \/ c = LF.
Proof.
  unfold cr_to_lf. rewrite in_map_iff. intros (d & Hd & Hin).
  destruct (d =? CR); [by right | subst; by left].
Qed.

(** X1: normalizeContent leaves every character other than the byte-order
    mark, CR, LF, space and tab as it is and where it is: the input and the
    output hold the same such characters in the same order.  And it invents
    nothing but linefeeds: a character of the output is a character of the
    input or a linefeed. *)
Theorem normalizeContent_keeps_visible (x : jsstring) :
  List.filter visible (normalizeContent x) = List.filter visible x
  /\ forall c, In c (normalizeContent x) -> In c x \/ c = LF.
Proof.
  split.
  - rewrite normalizeContent_closed.
    rewrite (filter_after_bom visible) by (done || apply visible_ws).
    apply filter_visible_strip_bom.
  - intros c. rewrite normalizeContent_closed. unfold ensure_final_newline.
    rewrite in_app_iff. intros [H|[H|[]]]; [|by right].
    apply in_drop_final_newlines, in_rtrim_lines, in_cr_to_lf in H.
    destruct H as [H|H]; [|by right].
    left. by apply in_strip_bom, in_crlf_to_lf.
Qed.

Lemma length_strip_bom s : (length (strip_bom s) <= length s)%nat.
Proof. destruct s as [|c s]; [done|]. simpl. destruct (c =? BOM); simpl; lia. Qed.

Lemma length_crlf_to_lf s : (length (crlf_to_lf s) <= length s)%nat.
Proof.
  induction s as [|c|t IH|c d t E IH] using crlf_ind; [done..| |].
  - rewrite crlf_to_lf_pair. simpl. lia.
  - rewrite crlf_to_lf_step by done. simpl in *. lia.
Qed.

Lemma length_cr_to_lf s : length (cr_to_lf s) = length s.
Proof. apply length_map. Qed.

Lemma length_rtrim_lines s : (length (rtrim_lines s) <= length s)%nat.
Proof.
  induction s as [|c s IH]; [done|]. cbn [rtrim_lines].
  destruct (is_ws c && at_eol true (rtrim_lines s)); simpl; lia.
Qed.

Lemma length_drop_final_newlines s : (length (drop_final_newlines s) <= length s)%nat.
Proof.
  induction s as [|c s IH]; [done|]. cbn [drop_final_newlines].
  destruct (drop_final_newlines s); [destruct (c =? LF)|]; simpl in *; lia.
Qed.

(** X2: normalizeContent never returns the empty string, and its output is
    at most one character longer than its input (the final linefeed). *)
Theorem normalizeContent_length (x : jsstring) :
  (1 <= length (normalizeContent x) <= length x + 1)%nat.
Proof.
  rewrite normalizeContent_closed. unfold ensure_final_newline.
  rewrite length_app. simpl. split; [lia|].
  pose proof (length_drop_final_newlines
                (rtrim_lines (cr_to_lf (crlf_to_lf (strip_bom x))))).
  pose proof (length_rtrim_lines (cr_to_lf (crlf_to_lf (strip_bom x)))).
  pose proof (length_crlf_to_lf (strip_bom x)).
  pose proof (length_strip_bom x).
  pose proof (length_cr_to_lf (crlf_to_lf (strip_bom x))). lia.
Qed.

Lemma strip_bom_cons_bom t : strip_bom (BOM :: t) = t.
Proof. reflexivity. Qed.

(** X3: the texts that normalizeContent returns unchanged are exactly the
    normalised ones that do not start with a byte-order mark: no CR, no
    space or tab before a line terminator or at the end, one linefeed at
    the end and no other before it. *)
Theorem normalizeContent_fixed_points (s : jsstring) :
  normalizeContent s = s <-> normal s /\ head s <> Some BOM.
Proof.
  split.
  - intros E. split; [rewrite <- E; apply normalizeContent_normal|].
    destruct s as [|c t]; [done|]. simpl. intros [= ->].
    apply (f_equal (List.filter (N.eqb BOM))) in E.
    rewrite normalizeContent_closed, strip_bom_cons_bom in E.
    rewrite filter_after_bom in E.
    + simpl in E. apply (f_equal length) in E.
      rewrite length_cons in E. unfold char in E. lia.
    + reflexivity.
    + reflexivity.
    + intros c Hc. apply N.eqb_neq. intros <-. done.
  - intros [Hn Hh]. rewrite normalizeContent_of_normal by done.
    by apply strip_bom_id.
Qed.

(** X4: a second pass of normalizeContent does nothing but remove a
    byte-order mark that the first pass left at the start; it changes the
    text exactly when the input began with two byte-order marks. *)
Theorem normalizeContent_second_pass (x : jsstring) :
  normalizeContent (normalizeContent x) = strip_bom (normalizeContent x)
  /\ (normalizeContent (normalizeContent x) = normalizeContent x
      <-> forall t, x <> BOM :: BOM :: t).
Proof.
  split; [apply normalizeContent_twice|]. split.
  - intros E t ->. by apply (normalizeContent_two_boms t).
  - intros H. rewrite normalizeContent_twice. apply strip_bom_id.
    intros Hh. apply head_normalizeContent in Hh as [Hh|Hh]; [|done].
    by apply (head_strip_bom x H).
Qed.

(** ** normalizeContent: line endings *)

Lemma crlf_to_lf_cons_ne c t :
  (c =? CR) = false -> crlf_to_lf (c :: t) = c :: crlf_to_lf t.
Proof. intros H. cbn [crlf_to_lf]. rewrite H. by destruct t. Qed.

Lemma crlf_to_lf_app_plain a b :
  ~ In CR a -> crlf_to_lf (a ++ b) = a ++ crlf_to_lf b.
Proof.
  induction a as [|c a IH]; [done|]. intros H.
  change ((c :: a) ++ b) with (c :: a ++ b).
  rewrite crlf_to_lf_cons_ne.
  - rewrite IH; [done|]. intros Hin. apply H. by right.
  - apply N.eqb_neq. intros ->. apply H. by left.
Qed.

Lemma cr_to_lf_app_plain a b :
  ~ In CR a -> cr_to_lf (a ++ b) = a ++ cr_to_lf b.
Proof.
  intros H. unfold cr_to_lf. rewrite map_app. f_equal. by apply cr_to_lf_id.
Qed.

Lemma crlf_to_lf_no_lf s : ~ In LF s -> crlf_to_lf s = s.
Proof.
  induction s as [|c|t IH|c d t E IH] using crlf_ind; [done..| |]; intros H.
  - destruct H. simpl. tauto.
  - rewrite crlf_to_lf_step by done. rewrite IH; [done|].
    intros Hin. apply H. by right.
Qed.

Lemma not_in_lf_unlines_cr ls tail :
  Forall plain ls -> plain tail -> ~ In LF (unlines_with [CR] ls ++ tail).
Proof.
  intros Hls [_ Ht]. induction Hls as [|l ls [_ Hl] _ IH]; [done|].
  unfold unlines_with in *. simpl. rewrite <- !app_assoc, !in_app_iff.
  rewrite in_app_iff in IH.
  simpl. intros [H|[[H|[]]|H]]; [tauto | done | tauto].
Qed.

(** After the two line-ending steps, a text with CR LF endings, or with CR
    endings, is the text with LF endings. *)
Lemma line_endings_unified ls tail :
  Forall plain ls -> plain tail ->
  cr_to_lf (crlf_to_lf (unlines_with [CR; LF] ls ++ tail)) = unlines_with [LF] ls ++ tail
  /\ cr_to_lf (crlf_to_lf (unlines_with [CR] ls ++ tail)) = unlines_with [LF] ls ++ tail
  /\ cr_to_lf (crlf_to_lf (unlines_with [LF] ls ++ tail)) = unlines_with [LF] ls ++ tail.
Proof.
  intros Hls Ht. split; [|split].
  - destruct Ht as [Ht _].
    induction Hls as [|l ls [Hl _] _ IH].
    + simpl. by rewrite crlf_to_lf_id, cr_to_lf_id.
    + unfold unlines_with in *. simpl. rewrite <- !app_assoc.
      rewrite crlf_to_lf_app_plain by done. simpl app.
      rewrite cr_to_lf_app_plain by done.
      simpl. by rewrite IH.
  - rewrite crlf_to_lf_no_lf by (by apply not_in_lf_unlines_cr).
    destruct Ht as [Ht _].
    induction Hls as [|l ls [Hl _] _ IH].
    + simpl. by rewrite cr_to_lf_id.
    + unfold unlines_with in *. simpl. rewrite <- !app_assoc.
      rewrite cr_to_lf_app_plain by done. simpl. by rewrite IH.
  - assert (~ In CR (unlines_with [LF] ls ++ tail)) as H.
    { destruct Ht as [Ht _]. induction Hls as [|l ls [Hl _] _ IH]; [done|].
      unfold unlines_with in *. simpl. rewrite <- !app_assoc, !in_app_iff.
      rewrite in_app_iff in IH.
      simpl. intros [H|[[H|[]]|H]]; [tauto | done | tauto]. }
    by rewrite crlf_to_lf_id, cr_to_lf_id.
Qed.

(** Removing the byte-order mark does not depend on the line ending. *)
Lemma strip_bom_unlines ls tail :
  Forall plain ls -> plain tail ->
  exists ls' tail', Forall plain ls' /\ plain tail'
    /\ forall e ending, e <> BOM ->
         strip_bom (unlines_with (e :: ending) ls ++ tail)
         = unlines_with (e :: ending) ls' ++ tail'.
Proof.
  intros Hls Ht. destruct ls as [|l ls].
  - exists [], (strip_bom tail). split; [done|]. split; [|done].
    destruct Ht as [H1 H2]. split; intros H; by apply in_strip_bom in H.
  - apply Forall_cons in Hls as [Hl Hls]. destruct l as [|c l].
    + exists ([] :: ls), tail. split; [by constructor|]. split; [done|].
      intros e ending He. unfold unlines_with. simpl.
      destruct (e =? BOM) eqn:Ee; [|done].
      apply N.eqb_eq in Ee. by subst.
    + destruct (c =? BOM) eqn:Ec.
      * exists (l :: ls), tail. split.
        { constructor; [|done]. destruct Hl as [H1 H2].
          split; intros H; [apply H1 | apply H2]; by right. }
        split; [done|]. intros e ending _. unfold unlines_with. simpl.
        by rewrite Ec.
      * exists ((c :: l) :: ls), tail. split; [by constructor|]. split; [done|].
        intros e ending _. unfold unlines_with. simpl. by rewrite Ec.
Qed.

(** X5: normalizeContent does not depend on the line-ending convention of
    the input: lines that end in CR LF, or lines that end in CR, normalise
    to what the same lines ending in LF normalise to (the last line may
    lack its ending). *)
Theorem normalizeContent_line_endings (ls : list jsstring) (tail : jsstring) :
  Forall plain ls -> plain tail ->
  normalizeContent (unlines_with [CR; LF] ls ++ tail)
  = normalizeContent (unlines_with [LF] ls ++ tail)
  /\ normalizeContent (unlines_with [CR] ls ++ tail)
     = normalizeContent (unlines_with [LF] ls ++ tail).
Proof.
  intros Hls Ht.
  destruct (strip_bom_unlines ls tail Hls Ht) as (ls' & tail' & Hls' & Ht' & E).
  destruct (line_endings_unified ls' tail' Hls' Ht') as (E1 & E2 & E3).
  rewrite !normalizeContent_closed, !E by done.
  by rewrite E1, E2, E3.
Qed.

Lemma normalizeContent_line_endings_witness :
  let ls := [BOM :: js "SET UTF-8"; js "TRY ab "; []; js "SFX A Y 1"] in
  let tail := js "SFX A 0 s ." in
  normalizeContent (unlines_with [CR; LF] ls ++ tail)
  = normalizeContent (unlines_with [LF] ls ++ tail)
  /\ normalizeContent (unlines_with [CR] ls ++ tail)
     = normalizeContent (unlines_with [LF] ls ++ tail).
Proof.
  intros ls tail. apply (normalizeContent_line_endings ls tail).
  - repeat constructor; vm_compute; intuition discriminate.
  - split; vm_compute; intuition discriminate.
Defined.

(** ** The SET pragma rewrite: every input *)

Lemma replace_first_no_match ml p repl s : forall prev,
  test_from ml p prev s = false -> replace_first ml p repl prev s = s.
Proof.
  induction s as [|c s IH]; intros prev H; cbn [test_from replace_first] in *.
  - by destruct (match_pattern ml p prev []).
  - destruct (match_pattern ml p prev (c :: s)); [done|]. by rewrite IH.
Qed.

Lemma forallb_take_while f s : forallb f (take_while f s) = true.
Proof.
  induction s as [|c s IH]; [done|]. simpl.
  destruct (f c) eqn:E; [|done]. simpl. by rewrite E.
Qed.

Lemma at_eol_drop_while_dot s : at_eol true (drop_while dot s) = true.
Proof.
  induction s as [|c s IH]; [done|]. cbn [drop_while].
  destruct (dot c) eqn:E; [done|]. simpl in *. by apply negb_false_iff in E.
Qed.

(** What a match of the pattern looks like. *)
Lemma match_set_inv prev s r :
  match_pattern true set_pattern prev s = Some r ->
  at_bol true prev = true
  /\ exists v, forallb dot v = true /\ at_eol true r = true
       /\ s = js "SET " ++ v ++ r.
Proof.
  cbn [match_pattern source re_set atom_matches].
  destruct (at_bol true prev); [|done].
  destruct s as [|x1 [|x2 [|x3 [|x4 v]]]]; try done;
    try (destruct (x1 =? 83); done);
    try (destruct (x1 =? 83), (x2 =? 69); done);
    try (destruct (x1 =? 83), (x2 =? 69), (x3 =? 84); done).
  destruct (x1 =? 83) eqn:E1; [|done]. destruct (x2 =? 69) eqn:E2; [|done].
  destruct (x3 =? 84) eqn:E3; [|done]. destruct (x4 =? SP) eqn:E4; [|done].
  apply N.eqb_eq in E1, E2, E3, E4. subst.
  rewrite star_dot. intros [= <-]. split; [done|].
  exists (take_while dot v).
  split; [apply forallb_take_while|]. split; [apply at_eol_drop_while_dot|].
  change (js "SET " ++ ?a) with (83 :: 69 :: 84 :: SP :: a).
  by rewrite take_drop_while.
Qed.

(** Before the first match, a failed attempt depends on the text up to the
    word SET only. *)
Lemma match_set_none_ext b x y prev :
  b <> [] ->
  match_pattern true set_pattern prev (b ++ js "SET " ++ x) = None ->
  match_pattern true set_pattern prev (b ++ js "SET " ++ y) = None.
Proof.
  intros Hb. cbn [match_pattern source re_set atom_matches].
  destruct (at_bol true prev); [|done].
  destruct b as [|x1 b]; [done|]. simpl.
  destruct (x1 =? 83); [|done].
  destruct b as [|x2 b]; [done|]. simpl.
  destruct (x2 =? 69); [|done].
  destruct b as [|x3 b]; [done|]. simpl.
  destruct (x3 =? 84); [|done].
  destruct b as [|x4 b]; [done|]. simpl.
  destruct (x4 =? SP); [|done].
  by rewrite star_dot.
Qed.

(** Every text is one that the pattern does not match, or whole lines
    without a match, then a line [SET <value>], then the rest. *)
Lemma set_line_found s : forall prev,
  test_from true set_pattern prev s = false
  \/ exists pre v post,
       s = pre ++ js "SET " ++ v ++ post
       /\ (forall a b, pre = a ++ b -> b <> [] ->
             match_pattern true set_pattern (prev_after prev a)
               (b ++ js "SET " ++ v ++ post) = None)
       /\ at_bol true (prev_after prev pre) = true
       /\ forallb dot v = true /\ at_eol true post = true.
Proof.
  induction s as [|c s IH]; intros prev.
  - left. simpl. by destruct (at_bol true prev).
  - cbn [test_from].
    destruct (match_pattern true set_pattern prev (c :: s)) as [r|] eqn:E.
    + right. apply match_set_inv in E as (Hb & v & Hv & Hr & Es).
      exists [], v, r. split; [done|]. split; [|done].
      intros a b Hab Hne. by destruct a, b.
    + destruct (IH (Some c)) as [H|(pre & v & post & -> & Hpre & Hb & Hv & Hp)];
        [by left|].
      right. exists (c :: pre), v, post. split; [done|].
      split; [|done]. intros a b Hab Hne.
      destruct a as [|d a]; simpl in Hab.
      * subst b. exact E.
      * injection Hab as -> ->. by apply Hpre.
Qed.

Lemma set_utf8_found pre v post prev :
  (forall a b, pre = a ++ b -> b <> [] ->
     match_pattern true set_pattern (prev_after prev a)
       (b ++ js "SET " ++ v ++ post) = None) ->
  at_bol true (prev_after prev pre) = true ->
  forallb dot v = true -> at_eol true post = true ->
  replace_first true set_pattern SET_UTF8 prev (pre ++ js "SET " ++ v ++ post)
  = pre ++ SET_UTF8 ++ post.
Proof.
  intros Hpre Hb Hv Hp. rewrite replace_first_app by done. f_equal.
  apply replace_first_hit. rewrite match_set_line by done.
  by rewrite drop_while_dot_app.
Qed.

(** X6: where no line starts with the word SET and a space, the rewrite
    returns the affix content unchanged: no SET line is added. *)
Theorem set_utf8_no_match (s : jsstring) :
  test re_set s = false -> set_utf8 s = s.
Proof. intros H. by apply replace_first_no_match. Qed.

Lemma set_utf8_no_match_witness :
  let s := js "# no pragma" ++ [LF] ++ js "TRY abc" ++ [LF] ++ js "FLAG SET x" ++ [LF]
             ++ js "SETTING" ++ [LF] in
  set_utf8 s = s.
Proof. intros s. apply (set_utf8_no_match s). reflexivity. Defined.

(** X7: the first line that starts with SET and a space is replaced by
    [SET UTF-8] whatever value it declares (none, UTF-8 itself, anything
    without a line terminator), and the text before and after it is kept. *)
Theorem set_utf8_any_value (pre v post : jsstring) :
  whole_lines pre = true -> test re_set pre = false ->
  forallb dot v = true -> at_eol true post = true ->
  set_utf8 (pre ++ js "SET " ++ v ++ post) = pre ++ js "SET UTF-8" ++ post.
Proof. apply set_utf8_first_match. Qed.

Lemma set_utf8_any_value_witness :
  let pre := js "# comment" ++ [LS] in
  let v := js "microsoft-cp1251  # legacy" in
  let post := [CR] ++ js "SET KOI8-R" ++ [CR] in
  set_utf8 (pre ++ js "SET " ++ v ++ post) = pre ++ js "SET UTF-8" ++ post.
Proof.
  intros pre v post. apply (set_utf8_any_value pre v post); reflexivity.
Defined.

(** X8: the rewrite is idempotent: applied to its own output it changes
    nothing. *)
Theorem set_utf8_idempotent (s : jsstring) :
  set_utf8 (set_utf8 s) = set_utf8 s.
Proof.
  unfold set_utf8, replace. simpl global. cbv iota.
  change (multiline re_set) with true.
  destruct (set_line_found s None)
    as [H|(pre & v & post & -> & Hpre & Hb & Hv & Hp)].
  - by rewrite !(replace_first_no_match _ _ _ s).
  - rewrite (set_utf8_found pre v post None) by done.
    change SET_UTF8 with (js "SET " ++ js "UTF-8").
    rewrite <- (app_assoc (js "SET ")).
    apply (set_utf8_found pre (js "UTF-8") post None); try done.
    intros a b Hab Hne.
    by apply (match_set_none_ext b (v ++ post)), Hpre.
Qed.

(** ** processDictionary: every run *)


Section Runs.

Variable dir : string.
Variable env : Env.

Lemma processDictionary_extends dict w :
  exists delta,
    trace (snd (processDictionary dir env dict w)) = trace w ++ delta
    /\ calls delta `prefix_of` PLAN dir dict.
Proof.
  run_cases.
  all: rewrite <- ?app_assoc; eexists; (split; [reflexivity|]).
  all: cbn [app calls omap list_omap]; by eexists.
Qed.






(** X11: what processDictionary leaves in a file of the destination
    directory is what was there before, or: for index.dic, index.aff and
    license a normalised text (no CR, no space or tab at the end of a line,
    one final linefeed); for .spdx the license identifier and a linefeed,
    as it is in the descriptor; for .source the repository URL and a
    linefeed. *)
Theorem written_contents (dict : Dictionary) (w : World) (f : string)
    (c : jsstring) :
  files (snd (processDictionary dir env dict w)) !! artifact dir dict f = Some c ->
  files w !! artifact dir dict f = Some c
  \/ (f ∈ ["index.dic"; "index.aff"; "license"] /\ normal c)
  \/ (f = ".spdx" /\ c = js (license dict) ++ [LF])
  \/ (f = ".source" /\ c = js SOURCE_URL ++ [LF]).
Proof.
  unfold artifact, destDir, affContent. run_cases.
  all: repeat (rewrite lookup_insert;
         match goal with
         | |- context [decide (?a = ?b)] => destruct (decide (a = b)) as [Heq|_]
         end;
         [apply path_join_inj in Heq; subst f; intros [= <-];
          first [ right; left; split; [set_solver | apply normalizeContent_normal]
                | right; right; left; by split
                | right; right; right; by split ] |]).
  all: intros H; by left.
Qed.

(** X12: processDictionary throws only what mkdir or the write of .spdx or
    of .source threw: no answer of the network, and no failure while
    index.dic, index.aff or license is written, makes it throw. *)
Theorem throws_only_from_fs (dict : Dictionary) (w : World) (e : string) :
  fst (processDictionary dir env dict w) = Thrown e ->
  mkdir_error env (destDir dir dict) = Some e
  \/ write_error env (artifact dir dict ".spdx") = Some e
  \/ write_error env (artifact dir dict ".source") = Some e.
Proof.
  unfold artifact, destDir. run_cases; intros [= <-]; auto.
Qed.

End Runs.

(** ** processDictionary: what happens when *)

Section Scenarios.

Variable dir : string.
Variable env : Env.

Lemma processDictionary_present env' dict w :
  is_Some (files w !! artifact dir dict "index.dic") ->
  processDictionary dir env' dict w
  = (Returned tt,
     {| files := files w; dirs := dirs w;
        trace := trace w ++
          [ExistsSync (artifact dir dict "index.dic");
           ConsoleLog ("  ✓ " +:+ code dict +:+ " (" +:+ name dict
                       +:+ ") - already exists")] |}).
Proof.
  unfold artifact, destDir. intros H. run_cases.
  unfold record. cbn [files dirs trace]. by rewrite <- app_assoc.
Qed.

(** X13: a failed download of the affix rules is not repaired.  When the
    word list is fetched and written and the fetch of the affix rules then
    fails, processDictionary returns normally with index.dic written and
    nothing else; and because index.dic is now there, a later run for the
    same descriptor, whatever the network then answers, fetches nothing and
    changes no file. *)
Theorem aff_failure_is_final (dict : Dictionary) (w : World) (td : jsstring) :
  absent w (artifact dir dict "index.dic") ->
  mkdir_error env (destDir dir dict) = None ->
  fetch_text env (dicUrl dict) = Some td ->
  write_error env (artifact dir dict "index.dic") = None ->
  fetch_fails env (affUrl dict) ->
  let r := processDictionary dir env dict w in
  fst r = Returned tt
  /\ files (snd r)
     = <[artifact dir dict "index.dic" := normalizeContent td]> (files w)
  /\ written (trace (snd r)) = written (trace w) ++ [artifact dir dict "index.dic"]
  /\ forall env2,
       let r2 := processDictionary dir env2 dict (snd r) in
       fst r2 = Returned tt
       /\ files (snd r2) = files (snd r)
       /\ fetched (trace (snd r2)) = fetched (trace (snd r)).
Proof.
  intros [Hf Hd] Hmk Hdic Hwr Haff r.
  assert (~ is_Some (files w !! artifact dir dict "index.dic")) as Hf'
    by (rewrite Hf; by intros [? ?]).
  destruct (fetch_text_Some _ _ _ Hdic) as (rd & Hn & Hok & Hb).
  assert (fst r = Returned tt
          /\ files (snd r)
             = <[artifact dir dict "index.dic" := normalizeContent td]> (files w)
          /\ written (trace (snd r))
             = written (trace w) ++ [artifact dir dict "index.dic"])
    as (Hr & Hfiles & Hwritten).
  { subst r. unfold fetch_fails, artifact, destDir in *.
    destruct (net env (affUrl dict)) as [e|ra] eqn:Hna; run_cases.
    all: rewrite <- ?app_assoc, written_app; by cbn [written omap list_omap app]. }
  split; [done|]. split; [done|]. split; [done|].
  intros env2 r2. subst r2.
  rewrite (processDictionary_present env2 dict (snd r))
    by (rewrite Hfiles, lookup_insert_eq; by eexists).
  cbn [fst snd files trace]. split; [done|]. split; [done|].
  unfold fetched. rewrite omap_app. cbn [omap list_omap]. by rewrite app_nil_r.
Qed.

(** X14: when index.dic is not there yet, the file system works and the
    three fetches succeed, processDictionary returns normally, its calls
    are the whole plan in order, and the five files hold the normalised
    word list, the normalised affix rules after the SET rewrite, the
    license identifier and a linefeed, the repository URL and a linefeed,
    and the normalised license text. *)
Theorem full_download (dict : Dictionary) (w : World) (td ta tl : jsstring) :
  absent w (artifact dir dict "index.dic") ->
  fs_works env dir dict ->
  fetch_text env (dicUrl dict) = Some td ->
  fetch_text env (affUrl dict) = Some ta ->
  fetch_text env (licenseUrl dict) = Some tl ->
  let r := processDictionary dir env dict w in
  fst r = Returned tt
  /\ files (snd r)
     = <[artifact dir dict "license" := normalizeContent tl]>
         (<[artifact dir dict ".source" := js SOURCE_URL ++ [LF]]>
            (<[artifact dir dict ".spdx" := js (license dict) ++ [LF]]>
               (<[artifact dir dict "index.aff" := affContent ta]>
                  (<[artifact dir dict "index.dic" := normalizeContent td]>
                     (files w)))))
  /\ exists delta, trace (snd r) = trace w ++ delta /\ calls delta = PLAN dir dict.
Proof.
  intros [Hf Hd] [Hmk Hwr] Hdic Haff Hlic r.
  assert (~ is_Some (files w !! artifact dir dict "index.dic")) as Hf'
    by (rewrite Hf; by intros [? ?]).
  destruct (fetch_text_Some _ _ _ Hdic) as (rd & Hnd & Hokd & Hbd).
  destruct (fetch_text_Some _ _ _ Haff) as (ra & Hna & Hoka & Hba).
  destruct (fetch_text_Some _ _ _ Hlic) as (rl & Hnl & Hokl & Hbl).
  pose proof (Hwr "index.dic") as Hw1. pose proof (Hwr "index.aff") as Hw2.
  pose proof (Hwr ".spdx") as Hw3. pose proof (Hwr ".source") as Hw4.
  pose proof (Hwr "license") as Hw5. clear Hwr.
  subst r. unfold PLAN, artifact, destDir, affContent in *. run_cases.
  unfold line. split; [reflexivity|]. split; [reflexivity|].
  rewrite <- ?app_assoc. eexists. split; [reflexivity|].
  cbn [app calls omap list_omap]. reflexivity.
Qed.

(** X15: a failure of the write of .spdx is not caught inside
    processDictionary: it throws, after index.dic and index.aff were
    written; .source is not written, the license is not fetched, and the
    loop of main reports the failure of the descriptor. *)
Theorem spdx_failure_escapes (dict : Dictionary) (w : World)
    (td ta : jsstring) (e : string) :
  absent w (artifact dir dict "index.dic") ->
  mkdir_error env (destDir dir dict) = None ->
  fetch_text env (dicUrl dict) = Some td ->
  fetch_text env (affUrl dict) = Some ta ->
  write_error env (artifact dir dict "index.dic") = None ->
  write_error env (artifact dir dict "index.aff") = None ->
  write_error env (artifact dir dict ".spdx") = Some e ->
  let r := processDictionary dir env dict w in
  fst r = Thrown e
  /\ files (snd r)
     = <[artifact dir dict "index.aff" := affContent ta]>
         (<[artifact dir dict "index.dic" := normalizeContent td]> (files w))
  /\ (exists delta, trace (snd r) = trace w ++ delta
        /\ calls delta = take 7 (PLAN dir dict))
  /\ after_descriptor dir env dict w
     = record (ConsoleLog ("  ✗ " +:+ code dict +:+ " failed: " +:+ e)) (snd r).
Proof.
  intros [Hf Hd] Hmk Hdic Haff Hw1 Hw2 Hw3 r.
  assert (~ is_Some (files w !! artifact dir dict "index.dic")) as Hf'
    by (rewrite Hf; by intros [? ?]).
  destruct (fetch_text_Some _ _ _ Hdic) as (rd & Hnd & Hokd & Hbd).
  destruct (fetch_text_Some _ _ _ Haff) as (ra & Hna & Hoka & Hba).
  assert (r = (Thrown e, snd r)
          /\ files (snd r)
             = <[artifact dir dict "index.aff" := affContent ta]>
                 (<[artifact dir dict "index.dic" := normalizeContent td]> (files w))
          /\ (exists delta, trace (snd r) = trace w ++ delta
                /\ calls delta = take 7 (PLAN dir dict))) as (Hr & Hfiles & Htrace).
  { subst r. unfold PLAN, artifact, destDir, affContent in *. run_cases.
    unfold line. split; [reflexivity|]. split; [reflexivity|].
    rewrite <- ?app_assoc. eexists. split; [reflexivity|].
    cbn [app calls omap list_omap take]. reflexivity. }
  split; [by rewrite Hr|]. split; [done|]. split; [done|].
  by apply after_descriptor_thrown.
Qed.

(** X16: a failure while the license is stored is swallowed like a failed
    fetch.  When the license file is fetched with success but its write
    fails, processDictionary still returns normally with the other four
    files written, and the console says that no license file was found. *)
Theorem license_write_failure_swallowed (dict : Dictionary) (w : World)
    (td ta tl : jsstring) (e : string) :
  absent w (artifact dir dict "index.dic") ->
  mkdir_error env (destDir dir dict) = None ->
  fetch_text env (dicUrl dict) = Some td ->
  fetch_text env (affUrl dict) = Some ta ->
  fetch_text env (licenseUrl dict) = Some tl ->
  (forall f, f ∈ ["index.dic"; "index.aff"; ".spdx"; ".source"] ->
     write_error env (artifact dir dict f) = None) ->
  write_error env (artifact dir dict "license") = Some e ->
  let r := processDictionary dir env dict w in
  fst r = Returned tt
  /\ files (snd r)
     = <[artifact dir dict ".source" := js SOURCE_URL ++ [LF]]>
         (<[artifact dir dict ".spdx" := js (license dict) ++ [LF]]>
            (<[artifact dir dict "index.aff" := affContent ta]>
               (<[artifact dir dict "index.dic" := normalizeContent td]>
                  (files w))))
  /\ exists before,
       trace (snd r)
       = before
         ++ [Fetch (licenseUrl dict);
             WriteFile (artifact dir dict "license") (normalizeContent tl);
             ConsoleLog "    - No license file found";
             ConsoleLog ("  ✓ " +:+ code dict +:+ " (" +:+ name dict +:+ ") - done")].
Proof.
  intros [Hf Hd] Hmk Hdic Haff Hlic Hwr Hw5 r.
  assert (~ is_Some (files w !! artifact dir dict "index.dic")) as Hf'
    by (rewrite Hf; by intros [? ?]).
  destruct (fetch_text_Some _ _ _ Hdic) as (rd & Hnd & Hokd & Hbd).
  destruct (fetch_text_Some _ _ _ Haff) as (ra & Hna & Hoka & Hba).
  destruct (fetch_text_Some _ _ _ Hlic) as (rl & Hnl & Hokl & Hbl).
  assert (write_error env (artifact dir dict "index.dic") = None) as Hw1
    by (apply Hwr; set_solver).
  assert (write_error env (artifact dir dict "index.aff") = None) as Hw2
    by (apply Hwr; set_solver).
  assert (write_error env (artifact dir dict ".spdx") = None) as Hw3
    by (apply Hwr; set_solver).
  assert (write_error env (artifact dir dict ".source") = None) as Hw4
    by (apply Hwr; set_solver).
  clear Hwr.
  subst r. unfold artifact, destDir, affContent in *. run_cases.
  unfold line. split; [reflexivity|]. split; [reflexivity|].
  eexists. rewrite <- (app_assoc _ [_] [_]). cbn [app].
  rewrite <- (app_assoc _ [_] [_; _]). cbn [app].
  rewrite <- (app_assoc _ [_] [_; _; _]). cbn [app]. reflexivity.
Qed.

End Scenarios.

(** ** The loop and main *)




Section Batch.

Variable dir : string.
Variable env : Env.

Lemma after_descriptor_extends dict w :
  exists delta, trace (after_descriptor dir env dict w) = trace w ++ delta.
Proof.
  destruct (processDictionary_extends dir env dict w) as (delta & E & _).
  unfold after_descriptor, try_catch.
  destruct (processDictionary dir env dict w) as [[[]|e] w']; simpl in *.
  - by exists delta.
  - exists (delta ++ [ConsoleLog ("  ✗ " +:+ code dict +:+ " failed: " +:+ e)]).
    by rewrite E, <- app_assoc.
Qed.

Lemma process_all_extends ds : forall w,
  exists delta, trace (snd (process_all dir env ds w)) = trace w ++ delta.
Proof.
  induction ds as [|d ds IH]; intros w.
  - exists []. simpl. by rewrite app_nil_r.
  - rewrite process_all_cons.
    destruct (after_descriptor_extends d w) as (d1 & E1).
    destruct (IH (after_descriptor dir env d w)) as (d2 & E2).
    exists (d1 ++ d2). by rewrite E2, E1, <- app_assoc.
Qed.



(** X17: when index.dic is there for every descriptor of a catalog, the
    loop of main changes no file and no directory, and its only calls are
    the existence checks of index.dic, one per descriptor in catalog
    order: nothing is fetched, so the run needs no network. *)
Theorem batch_all_present (ds : list Dictionary) (w : World) :
  (forall d, d ∈ ds -> is_Some (files w !! artifact dir d "index.dic")) ->
  let w' := snd (process_all dir env ds w) in
  files w' = files w /\ dirs w' = dirs w
  /\ exists delta,
       trace w' = trace w ++ delta
       /\ calls delta = map (fun d => CallExists (artifact dir d "index.dic")) ds.
Proof.
  revert w. induction ds as [|d ds IH]; intros w H w'.
  - split; [done|]. split; [done|]. exists []. by rewrite app_nil_r.
  - subst w'. rewrite process_all_cons.
    rewrite (after_descriptor_returned dir env d w tt _
               (processDictionary_present dir env d w (H d ltac:(by left)))).
    match goal with
    | |- context [process_all dir env ds ?w1] =>
        destruct (IH w1) as (Hf & Hd & delta & Ht & Hc)
    end.
    { intros d' Hd'. cbn [files]. apply H. by right. }
    rewrite Hf, Hd, Ht. cbn [files dirs trace].
    split; [done|]. split; [done|].
    eexists. rewrite <- app_assoc. split; [reflexivity|].
    unfold calls in *. rewrite omap_app, Hc. reflexivity.
Qed.



(** X20: when the root directory cannot be created, main throws what mkdir
    threw, after the six opening lines and the mkdir call: no descriptor
    is processed, nothing is fetched and no file is changed. *)
Theorem main_root_failure (w : World) (e : string) :
  mkdir_error env dir = Some e ->
  main dir env w
  = (Thrown e,
     {| files := files w; dirs := dirs w;
        trace := trace w ++
          [ConsoleLog "╔══════════════════════════════════════════════════════════════╗";
           ConsoleLog "║  LibreOffice Dictionaries Downloader (Cross-platform)        ║";
           ConsoleLog "╚══════════════════════════════════════════════════════════════╝";
           ConsoleLog EmptyString;
           ConsoleLog ("Adding " +:+ pretty (length LIBREOFFICE_DICTIONARIES)
                       +:+ " new dictionaries from LibreOffice...");
           ConsoleLog EmptyString;
           Mkdir dir] |}).
Proof.
  intros H. unfold main, bind. cbn [console_log]. unfold mkdir. rewrite H.
  unfold record. cbn [files dirs trace]. by rewrite <- !app_assoc.
Qed.

(** X21: when the root directory can be created, main returns normally
    whatever happens to the descriptors, and the console ends with the
    three closing lines. *)
Theorem main_completes (w : World) :
  mkdir_error env dir = None ->
  fst (main dir env w) = Returned tt
  /\ exists before,
       trace (snd (main dir env w))
       = trace w ++ before
         ++ [ConsoleLog EmptyString;
             ConsoleLog "Done! Now run: node --conditions development script/generate.js";
             ConsoleLog EmptyString].
Proof.
  intros H. unfold main, bind. cbn [console_log]. unfold mkdir. rewrite H.
  match goal with
  | |- context [process_all dir env ?ds ?w1] =>
      pose proof (process_all_returns dir env ds w1) as Hr;
      destruct (process_all_extends ds w1) as (delta & Ht);
      destruct (process_all dir env ds w1) as [o w2]
  end.
  cbn [fst] in Hr. subst o. split; [reflexivity|].
  cbn [snd] in Ht. cbn [snd console_log].
  unfold record in Ht |- *. cbn [trace files dirs] in Ht |- *.
  rewrite Ht, <- !app_assoc. cbn [app].
  eexists (_ :: _ :: _ :: _ :: _ :: _ :: _ :: delta). reflexivity.
Qed.

End Batch.


(** ** The further properties at sample inputs *)

Lemma written_contents_witness :
  let c := js "# affix rules" ++ [LF] ++ js "SET UTF-8" ++ [LF] ++ js "TRY abcd" ++ [LF] in
  files Sample.empty_world !! artifact Sample.root Sample.aa "index.aff" = Some c
  \/ ("index.aff" ∈ ["index.dic"; "index.aff"; "license"] /\ normal c)
  \/ ("index.aff" = ".spdx" /\ c = js (license Sample.aa) ++ [LF])
  \/ ("index.aff" = ".source" /\ c = js SOURCE_URL ++ [LF]).
Proof.
  intros c.
  apply (written_contents Sample.root Sample.env_no_license Sample.aa
           Sample.empty_world "index.aff" c).
  vm_compute. reflexivity.
Defined.

Lemma throws_only_from_fs_witness :
  let e := "EACCES: permission denied" in
  mkdir_error Sample.env_bb_denied (destDir Sample.root Sample.bb) = Some e
  \/ write_error Sample.env_bb_denied (artifact Sample.root Sample.bb ".spdx") = Some e
  \/ write_error Sample.env_bb_denied (artifact Sample.root Sample.bb ".source") = Some e.
Proof.
  intros e.
  apply (throws_only_from_fs Sample.root Sample.env_bb_denied Sample.bb
           Sample.empty_world e).
  vm_compute. reflexivity.
Defined.

Lemma aff_failure_is_final_witness :
  let r := processDictionary Sample.root Fixture.env_aff_missing Sample.aa
             Sample.empty_world in
  fst r = Returned tt
  /\ files (snd r)
     = <[artifact Sample.root Sample.aa "index.dic" := normalizeContent Sample.dic_text]>
         (files Sample.empty_world)
  /\ written (trace (snd r))
     = written (trace Sample.empty_world) ++ [artifact Sample.root Sample.aa "index.dic"]
  /\ forall env2,
       let r2 := processDictionary Sample.root env2 Sample.aa (snd r) in
       fst r2 = Returned tt
       /\ files (snd r2) = files (snd r)
       /\ fetched (trace (snd r2)) = fetched (trace (snd r)).
Proof.
  apply (aff_failure_is_final Sample.root Fixture.env_aff_missing Sample.aa
           Sample.empty_world Sample.dic_text).
  - split; [reflexivity | apply not_elem_of_empty].
  - reflexivity.
  - vm_compute. reflexivity.
  - reflexivity.
  - vm_compute. reflexivity.
Defined.

Lemma full_download_witness :
  let r := processDictionary Sample.root Fixture.env_all_served Sample.aa
             Sample.empty_world in
  fst r = Returned tt
  /\ files (snd r)
     = <[artifact Sample.root Sample.aa "license" := normalizeContent Fixture.license_text]>
         (<[artifact Sample.root Sample.aa ".source" := js SOURCE_URL ++ [LF]]>
            (<[artifact Sample.root Sample.aa ".spdx" := js (license Sample.aa) ++ [LF]]>
               (<[artifact Sample.root Sample.aa "index.aff" := affContent Sample.aff_text]>
                  (<[artifact Sample.root Sample.aa "index.dic"
                     := normalizeContent Sample.dic_text]>
                     (files Sample.empty_world)))))
  /\ exists delta, trace (snd r) = trace Sample.empty_world ++ delta
       /\ calls delta = PLAN Sample.root Sample.aa.
Proof.
  apply (full_download Sample.root Fixture.env_all_served Sample.aa
           Sample.empty_world Sample.dic_text Sample.aff_text Fixture.license_text).
  - split; [reflexivity | apply not_elem_of_empty].
  - split; [reflexivity | intros file; reflexivity].
  - vm_compute. reflexivity.
  - vm_compute. reflexivity.
  - vm_compute. reflexivity.
Defined.

Example full_download_ex :
  files (snd (processDictionary Sample.root Fixture.env_all_served Sample.aa
                Sample.empty_world))
  !! artifact Sample.root Sample.aa "license"
  = Some (js "GNU GENERAL PUBLIC LICENSE" ++ [LF] ++ js "Version 3" ++ [LF]).
Proof. vm_compute. reflexivity. Qed.

Lemma spdx_failure_escapes_witness :
  let env := Fixture.env_write_denied (artifact Sample.root Sample.aa ".spdx")
               "ENOSPC: no space left on device" in
  let r := processDictionary Sample.root env Sample.aa Sample.empty_world in
  fst r = Thrown "ENOSPC: no space left on device"
  /\ files (snd r)
     = <[artifact Sample.root Sample.aa "index.aff" := affContent Sample.aff_text]>
         (<[artifact Sample.root Sample.aa "index.dic" := normalizeContent Sample.dic_text]>
            (files Sample.empty_world))
  /\ (exists delta, trace (snd r) = trace Sample.empty_world ++ delta
        /\ calls delta = take 7 (PLAN Sample.root Sample.aa))
  /\ after_descriptor Sample.root env Sample.aa Sample.empty_world
     = record (ConsoleLog ("  ✗ " +:+ code Sample.aa +:+ " failed: "
                           +:+ "ENOSPC: no space left on device")) (snd r).
Proof.
  intros env.
  apply (spdx_failure_escapes Sample.root env Sample.aa Sample.empty_world
           Sample.dic_text Sample.aff_text "ENOSPC: no space left on device").
  - split; [reflexivity | apply not_elem_of_empty].
  - reflexivity.
  - vm_compute. reflexivity.
  - vm_compute. reflexivity.
  - vm_compute. reflexivity.
  - vm_compute. reflexivity.
  - vm_compute. reflexivity.
Defined.

Lemma license_write_failure_swallowed_witness :
  let env := Fixture.env_write_denied (artifact Sample.root Sample.aa "license")
               "EACCES: permission denied" in
  let r := processDictionary Sample.root env Sample.aa Sample.empty_world in
  fst r = Returned tt
  /\ files (snd r)
     = <[artifact Sample.root Sample.aa ".source" := js SOURCE_URL ++ [LF]]>
         (<[artifact Sample.root Sample.aa ".spdx" := js (license Sample.aa) ++ [LF]]>
            (<[artifact Sample.root Sample.aa "index.aff" := affContent Sample.aff_text]>
               (<[artifact Sample.root Sample.aa "index.dic"
                  := normalizeContent Sample.dic_text]>
                  (files Sample.empty_world))))
  /\ exists before,
       trace (snd r)
       = before
         ++ [Fetch (licenseUrl Sample.aa);
             WriteFile (artifact Sample.root Sample.aa "license")
               (normalizeContent Fixture.license_text);
             ConsoleLog "    - No license file found";
             ConsoleLog ("  ✓ " +:+ code Sample.aa +:+ " (" +:+ name Sample.aa
                         +:+ ") - done")].
Proof.
  intros env.
  apply (license_write_failure_swallowed Sample.root env Sample.aa
           Sample.empty_world Sample.dic_text Sample.aff_text
           Fixture.license_text "EACCES: permission denied").
  - split; [reflexivity | apply not_elem_of_empty].
  - reflexivity.
  - vm_compute. reflexivity.
  - vm_compute. reflexivity.
  - vm_compute. reflexivity.
  - intros f Hf.
    repeat (apply elem_of_cons in Hf; destruct Hf as [->|Hf];
            [vm_compute; reflexivity|]).
    by apply elem_of_nil in Hf.
  - vm_compute. reflexivity.
Defined.

Lemma batch_all_present_witness :
  let ds := [Sample.aa; Sample.cc] in
  let w := Fixture.world_with_aa_cc in
  let w' := snd (process_all Sample.root Fixture.env_all_served ds w) in
  files w' = files w /\ dirs w' = dirs w
  /\ exists delta,
       trace w' = trace w ++ delta
       /\ calls delta
          = map (fun d => CallExists (artifact Sample.root d "index.dic")) ds.
Proof.
  intros ds w.
  apply (batch_all_present Sample.root Fixture.env_all_served ds w).
  intros d Hd.
  repeat (apply elem_of_cons in Hd; destruct Hd as [->|Hd];
          [vm_compute; by eexists|]).
  by apply elem_of_nil in Hd.
Defined.


Lemma main_root_failure_witness :
  let e := "EROFS: read-only file system" in
  let w := Sample.empty_world in
  main Sample.root Fixture.env_root_denied w
  = (Thrown e,
     {| files := files w; dirs := dirs w;
        trace := trace w ++
          [ConsoleLog "╔══════════════════════════════════════════════════════════════╗";
           ConsoleLog "║  LibreOffice Dictionaries Downloader (Cross-platform)        ║";
           ConsoleLog "╚══════════════════════════════════════════════════════════════╝";
           ConsoleLog EmptyString;
           ConsoleLog ("Adding " +:+ pretty (length LIBREOFFICE_DICTIONARIES)
                       +:+ " new dictionaries from LibreOffice...");
           ConsoleLog EmptyString;
           Mkdir Sample.root] |}).
Proof.
  intros e w.
  apply (main_root_failure Sample.root Fixture.env_root_denied w e).
  reflexivity.
Defined.

Lemma main_completes_witness :
  let w := Sample.empty_world in
  fst (main Sample.root Fixture.env_aff_missing w) = Returned tt
  /\ exists before,
       trace (snd (main Sample.root Fixture.env_aff_missing w))
       = trace w ++ before
         ++ [ConsoleLog EmptyString;
             ConsoleLog "Done! Now run: node --conditions development script/generate.js";
             ConsoleLog EmptyString].
Proof.
  intros w. apply (main_completes Sample.root Fixture.env_aff_missing w).
  reflexivity.
Defined.

(** After a run of main in which every download of affix rules fails, each
    of the 27 destination directories holds index.dic and nothing else. *)
Example main_aff_missing_ex :
  let w := snd (main Sample.root Fixture.env_aff_missing Sample.empty_world) in
  map fst (map_to_list (files w))
  ≡ₚ map (fun d => artifact Sample.root d "index.dic") LIBREOFFICE_DICTIONARIES.
Proof. apply (bool_decide_unpack _). by vm_compute. Qed.


Example dic_failure_report_ex :
  last (trace (snd (processDictionary Sample.root Sample.env_nothing_found Sample.bb
                      Sample.empty_world)))
  = Some (ConsoleLog "    ✗ Failed to download .dic: HTTP 404").
Proof. vm_compute. reflexivity. Qed.
